(** * BCI-CP: signal-processing, classification and adaptation core

    Shallow embedding of the algorithmic services of the backend:

    - [decisionLogicService.ts]   (module [DecisionLogic], over [Q])
    - [featureExtractionService.ts] (module [FeatureExtraction], over [Q])
    - [preprocessingService.ts]   (module [Preprocessing], over [Q])
    - [ldaClassifier.ts]          (module [LDA], over [R])
    - the EEG signal simulation service (module [EEGSignal], over [R])

    JavaScript numbers are modelled in exact arithmetic: rationals where the
    code only adds, multiplies, divides and compares (so that the definitions
    run), reals where it calls [Math.exp], [Math.log], [Math.sqrt] or
    [Math.cos].  Strict equality [===] on numbers is equality of values
    ([Qeq] on rationals).  NaN and the infinities have no counterpart: every
    statement about a quotient carries the hypothesis that makes its divisor
    non-zero. *)

From Stdlib Require Import String ZArith QArith Qminmax Qround Qabs
  Reals Lia Lqa Lra Bool List.
Import ListNotations.
Local Open Scope string_scope.
Local Open Scope list_scope.
Local Open Scope Q_scope.

(** ** Numbers and arrays *)

(** [x < y] and [x > y] as used in the conditions of the source. *)
Definition Qltb (x y : Q) : bool := negb (Qle_bool y x).

(** A counted [for (let i = lo; i < hi; i++)] loop whose body updates the
    state [s]. *)
Definition for_range {S : Type} (lo hi : nat) (body : nat -> S -> S) (s : S)
  : S :=
  fold_left (fun acc i => body i acc) (seq lo (hi - lo)) s.

(** [a[i] = v] on an array, for an index inside it (the sources never assign
    past the end of an array through this form). *)
Fixpoint assign {A : Type} (a : list A) (i : nat) (v : A) : list A :=
  match a, i with
  | [], _ => []
  | _ :: rest, O => v :: rest
  | x :: rest, S i' => x :: assign rest i' v
  end.

(** [a.slice(start, end)] for non-negative integer bounds. *)
Definition slice {A : Type} (a : list A) (start end_ : nat) : list A :=
  firstn (end_ - start) (skipn start a).

(** [a.reduce((x, y) => x + y, 0)] *)
Definition Qsum (a : list Q) : Q := fold_left Qplus a 0.

(** [a.findIndex(pred)], with [None] for the source's [-1]. *)
Fixpoint findIndex {A : Type} (pred : A -> bool) (a : list A) : option nat :=
  match a with
  | [] => None
  | x :: rest =>
      if pred x then Some O
      else match findIndex pred rest with
           | Some k => Some (S k)
           | None => None
           end
  end.

(** The two labels a result can carry ([ 'YES' | 'NO' ] in the source). *)
Inductive Label : Type := YES | NO.

(** ** decisionLogicService.ts *)

Module DecisionLogic.

(** One entry of the history handed to [smoothPredictions]:
    [{ prediction: string; confidence: number }]. *)
Record Prediction : Type := mkPrediction {
  prediction : string;
  confidence : Q
}.

Record Smoothed : Type := mkSmoothed {
  decision : Label;
  avgConfidence : Q
}.

(** [predictions.slice(Math.max(0, predictions.length - windowSize))] *)
Definition window_of (predictions : list Prediction) (windowSize : Z)
  : list Prediction :=
  skipn (Z.to_nat (Z.max 0 (Z.of_nat (length predictions) - windowSize)))
        predictions.

(** The [for] loop of [smoothPredictions]: [i] is the loop index, the two
    accumulators are [weightedConfidence] and [weightSum]. *)
Fixpoint weight_loop (window : list Prediction) (i : nat)
  (weightedConfidence weightSum : Q) : Q * Q :=
  match window with
  | [] => (weightedConfidence, weightSum)
  | p :: rest =>
      let weight := inject_Z (Z.of_nat i + 1) in
      weight_loop rest (S i)
        (weightedConfidence + confidence p * weight)
        (weightSum + weight)
  end.

Definition isYes (p : Prediction) : bool := String.eqb (prediction p) "YES".

Definition smoothPredictions (predictions : list Prediction) (windowSize : Z)
  : Smoothed :=
  match predictions with
  | [] => mkSmoothed NO 0.5
  | _ =>
      let window := window_of predictions windowSize in
      let '(weightedConfidence, weightSum) := weight_loop window 0 0 0 in
      let avg := weightedConfidence / weightSum in
      let yesCount := Z.of_nat (length (filter isYes window)) in
      let threshold := Qceiling (inject_Z (Z.of_nat (length window)) / 2) in
      mkSmoothed (if (threshold <=? yesCount)%Z then YES else NO) avg
  end.

(** The result of [adaptDifficulty].  The object count is an integer (the
    [objectCount] column of the calibration state is an [Int]). *)
Record Difficulty : Type := mkDifficulty {
  newFlashSpeed : Q;
  newObjectCount : Z;
  notification : string
}.

Definition adaptDifficulty (recentAccuracy currentFlashSpeed : Q)
  (currentObjectCount : Z) : Difficulty :=
  if Qltb 0.7 recentAccuracy then
    let newFlashSpeed := Qmin 1.5 (currentFlashSpeed * 1.1) in
    if (currentObjectCount <? 4)%Z then
      mkDifficulty newFlashSpeed (currentObjectCount + 1)
        "Great job! Adding more objects."
    else
      mkDifficulty (Qmin 1.5 (newFlashSpeed * 1.15)) currentObjectCount
        "Excellent! Speeding up the game."
  else if Qltb recentAccuracy 0.4 then
    let newFlashSpeed := Qmax 0.6 (currentFlashSpeed * 0.9) in
    if (3 <? currentObjectCount)%Z then
      mkDifficulty newFlashSpeed (currentObjectCount - 1)
        "Let's slow down a bit. Removing an object."
    else
      mkDifficulty (Qmax 0.6 (newFlashSpeed * 0.85)) currentObjectCount
        "No worries! We'll take it slower."
  else
    mkDifficulty currentFlashSpeed currentObjectCount
      "You're doing great! Keep going!".

(** Repeated application, as the trial route does it: the flash speed and the
    object count returned by one call are stored and handed to the next call
    together with the next rolling accuracy. *)
Fixpoint adaptRepeatedly (accuracies : list Q) (flashSpeed : Q)
  (objectCount : Z) : Q * Z :=
  match accuracies with
  | [] => (flashSpeed, objectCount)
  | a :: rest =>
      let d := adaptDifficulty a flashSpeed objectCount in
      adaptRepeatedly rest (newFlashSpeed d) (newObjectCount d)
  end.

Definition inBounds (flashSpeed : Q) (objectCount : Z) : Prop :=
  (0.6 <= flashSpeed /\ flashSpeed <= 1.5) /\ (3 <= objectCount <= 4)%Z.

End DecisionLogic.

(** ** featureExtractionService.ts *)

Module FeatureExtraction.

Definition P300_START_MS : Q := 300.
Definition P300_END_MS : Q := 600.

Record FeatureVector : Type := mkFeatureVector {
  mean : Q;
  peak : Q;
  latency : Q
}.

(** The loop of [findClosestIndex], started at index [i] with the running
    [minDiff] and [closestIdx]. *)
Fixpoint closest_loop (rest : list Q) (target : Q) (i : nat) (minDiff : Q)
  (closestIdx : nat) : nat :=
  match rest with
  | [] => closestIdx
  | a :: rest' =>
      let diff := Qabs (a - target) in
      if Qltb diff minDiff
      then closest_loop rest' target (S i) diff i
      else closest_loop rest' target (S i) minDiff closestIdx
  end.

(** On an empty array the source computes [minDiff] from [undefined], skips
    the loop and returns [0]. *)
Definition findClosestIndex (array : list Q) (target : Q) : nat :=
  match array with
  | [] => O
  | a0 :: rest => closest_loop rest target 1 (Qabs (a0 - target)) O
  end.

(** [Math.max(x, ...xs)] *)
Definition maxOf (x : Q) (xs : list Q) : Q := fold_left Qmax xs x.

(** [t || 0] on an array element that may be missing. *)
Definition orZero (t : option Q) : Q :=
  match t with
  | Some v => if Qeq_bool v 0 then 0 else v
  | None => 0
  end.

Definition extractFeatures (filteredSignal timestamps : list Q)
  : FeatureVector :=
  let startIdx := findClosestIndex timestamps P300_START_MS in
  let endIdx := findClosestIndex timestamps P300_END_MS in
  let windowSignal := slice filteredSignal startIdx (endIdx + 1) in
  let windowTimestamps := slice timestamps startIdx (endIdx + 1) in
  match windowSignal with
  | [] => mkFeatureVector 0 0 0
  | s0 :: rest =>
      let mean :=
        Qsum windowSignal / inject_Z (Z.of_nat (length windowSignal)) in
      let peak := maxOf (Qabs s0) (map Qabs rest) in
      let peakIdx := findIndex (fun s => Qeq_bool (Qabs s) peak) windowSignal in
      let latency :=
        match peakIdx with
        | Some k => orZero (nth_error windowTimestamps k)
        | None => 0
        end in
      mkFeatureVector mean peak latency
  end.

End FeatureExtraction.

(** ** preprocessingService.ts *)

Module Preprocessing.

(** One moving-average pass: for every index the inner loop runs [j] from
    [max(0, i - floor(5/2))] up to [min(length, i + ceil(5/2))]. *)
Definition movingAveragePass (filtered : list Q) : list Q :=
  map (fun i =>
         let '(sum, count) :=
           for_range (i - 2) (Nat.min (length filtered) (i + 3))
             (fun j '(sum, count) => (sum + nth j filtered 0, (count + 1)%Z))
             (0, 0%Z) in
         sum / inject_Z count)
      (seq 0 (length filtered)).

Fixpoint passes (order : nat) (filtered : list Q) : list Q :=
  match order with
  | O => filtered
  | S order' => passes order' (movingAveragePass filtered)
  end.

Definition applyBandpassFilter (signal : list Q) (order : nat) : list Q :=
  let filtered := passes order signal in
  for_range 1 (length filtered)
    (fun i filtered =>
       assign filtered i (nth i filtered 0 - nth (i - 1) filtered 0 * 0.95))
    filtered.

(** The model covers [0 <= samplingRate] only.  For a sampling rate below
    zero [Math.floor(periodSamples)] is negative: the source then starts its
    loop at a negative index and reads [filtered[i - floor]] past the end of
    the array, which puts NaN into the result; [Z.to_nat] does not follow it
    there, so every statement about this function carries
    [0 <= samplingRate]. *)
Definition applyNotchFilter (signal : list Q) (samplingRate : Q) : list Q :=
  let notchFrequency := 50 in
  let periodSamples := samplingRate / notchFrequency in
  let p := Z.to_nat (Qfloor periodSamples) in
  for_range p (length signal)
    (fun i filtered =>
       let delayed := nth (i - p) filtered 0 in
       assign filtered i (nth i filtered 0 * 0.8 + delayed * 0.2))
    signal.

Record PreprocessedSignalResponse : Type := mkPreprocessed {
  rawSignal : list Q;
  filteredSignal : list Q
}.

Definition preprocessSignal (rawSignal : list Q) (samplingRate : Q)
  : PreprocessedSignalResponse :=
  let filteredSignal := applyBandpassFilter rawSignal 2 in
  let filteredSignal := applyNotchFilter filteredSignal samplingRate in
  let mean :=
    Qsum filteredSignal / inject_Z (Z.of_nat (length filteredSignal)) in
  let filteredSignal := map (fun sample => sample - mean) filteredSignal in
  mkPreprocessed rawSignal filteredSignal.

End Preprocessing.

(** ** ldaClassifier.ts *)

Module LDA.

Local Open Scope R_scope.

Record FeatureVector : Type := mkFeatureVector {
  mean : R;
  peak : R;
  latency : R
}.

Record ClassificationResult : Type := mkResult {
  prediction : Label;
  confidence : R
}.

(** The private fields of [LDAClassifier]. *)
Record Classifier : Type := mkClassifier {
  weights : list R;
  bias : R;
  isTrained : bool;
  threshold : R
}.

(** What a call writes to the console. *)
Inductive Console : Type :=
| Warn (message : string)
| Log (message : string) (values : list R).

(** The field initialisers of the class. *)
Definition new : Classifier := mkClassifier [0; 0; 0] 0 false 0.5.

Definition calculateMean (features : list FeatureVector) : FeatureVector :=
  let n := INR (length features) in
  let sum :=
    fold_left
      (fun acc f =>
         mkFeatureVector (mean acc + mean f) (peak acc + peak f)
           (latency acc + latency f))
      features (mkFeatureVector 0 0 0) in
  mkFeatureVector (mean sum / n) (peak sum / n) (latency sum / n).

Definition Matrix : Type := list (list R).

Definition entry (m : Matrix) (i j : nat) : R := nth j (nth i m []) 0.

Definition setEntry (m : Matrix) (i j : nat) (v : R) : Matrix :=
  assign m i (assign (nth i m []) j v).

(** The two nested loops [cov[i][j] += diff[i] * diff[j]]. *)
Definition accumulate (diff : list R) (cov : Matrix) : Matrix :=
  for_range 0 3
    (fun i cov =>
       for_range 0 3
         (fun j cov =>
            setEntry cov i j (entry cov i j + nth i diff 0 * nth j diff 0))
         cov)
    cov.

Definition centred (f mu : FeatureVector) : list R :=
  [mean f - mean mu; peak f - peak mu; latency f - latency mu].

Definition calculatePooledCovariance (class1 class2 : list FeatureVector)
  (mean1 mean2 : FeatureVector) : Matrix :=
  let n1 := length class1 in
  let n2 := length class2 in
  let n := INR (n1 + n2) in
  let cov : Matrix := [[0; 0; 0]; [0; 0; 0]; [0; 0; 0]] in
  let cov := fold_left (fun cov f => accumulate (centred f mean1) cov)
               class1 cov in
  let cov := fold_left (fun cov f => accumulate (centred f mean2) cov)
               class2 cov in
  let cov :=
    for_range 0 3
      (fun i cov =>
         for_range 0 3
           (fun j cov => setEntry cov i j (entry cov i j / (n - 2))) cov)
      cov in
  for_range 0 3 (fun i cov => setEntry cov i i (entry cov i i + 1e-6)) cov.

(** The matrix that [invert3x3] returns.  What the call writes to the
    console is [invert3x3Console] below. *)
Definition invert3x3 (m : Matrix) : Matrix :=
  let det :=
    entry m 0 0 * (entry m 1 1 * entry m 2 2 - entry m 1 2 * entry m 2 1) -
    entry m 0 1 * (entry m 1 0 * entry m 2 2 - entry m 1 2 * entry m 2 0) +
    entry m 0 2 * (entry m 1 0 * entry m 2 1 - entry m 1 1 * entry m 2 0) in
  if Rlt_dec (Rabs det) 1e-10 then
    [[1; 0; 0]; [0; 1; 0]; [0; 0; 1]]
  else
    [ [ (entry m 1 1 * entry m 2 2 - entry m 1 2 * entry m 2 1) / det;
        (entry m 0 2 * entry m 2 1 - entry m 0 1 * entry m 2 2) / det;
        (entry m 0 1 * entry m 1 2 - entry m 0 2 * entry m 1 1) / det ];
      [ (entry m 1 2 * entry m 2 0 - entry m 1 0 * entry m 2 2) / det;
        (entry m 0 0 * entry m 2 2 - entry m 0 2 * entry m 2 0) / det;
        (entry m 0 2 * entry m 1 0 - entry m 0 0 * entry m 1 2) / det ];
      [ (entry m 1 0 * entry m 2 1 - entry m 1 1 * entry m 2 0) / det;
        (entry m 0 1 * entry m 2 0 - entry m 0 0 * entry m 2 1) / det;
        (entry m 0 0 * entry m 1 1 - entry m 0 1 * entry m 1 0) / det ] ].

(** The console output of [invert3x3]: the warning of the branch that
    falls back to the identity, nothing otherwise. *)
Definition invert3x3Console (m : Matrix) : list Console :=
  let det :=
    entry m 0 0 * (entry m 1 1 * entry m 2 2 - entry m 1 2 * entry m 2 1) -
    entry m 0 1 * (entry m 1 0 * entry m 2 2 - entry m 1 2 * entry m 2 0) +
    entry m 0 2 * (entry m 1 0 * entry m 2 1 - entry m 1 1 * entry m 2 0) in
  if Rlt_dec (Rabs det) 1e-10 then
    [Warn "Matrix is nearly singular, using identity"]
  else [].

Definition matrixVectorMultiply (matrix : Matrix) (vector : list R)
  : list R :=
  map (fun i =>
         entry matrix i 0 * nth 0 vector 0 +
         entry matrix i 1 * nth 1 vector 0 +
         entry matrix i 2 * nth 2 vector 0)
      (seq 0 3).

(** [a.reduce((sum, val, i) => sum + val * b[i], 0)], from index [i] on. *)
Fixpoint dot_from (a b : list R) (i : nat) (sum : R) : R :=
  match a with
  | [] => sum
  | val :: rest => dot_from rest b (S i) (sum + val * nth i b 0)
  end.

Definition dotProduct (a b : list R) : R := dot_from a b 0 0.

Definition sigmoid (x : R) : R := 1 / (1 + exp (- x)).

(** The loop of [train] that separates the features by class: a label that
    is not ['YES'] sends its feature to [noFeatures].  It runs over the
    labels; [train] has checked that there are as many features. *)
Fixpoint separate (labels : list string) (features : list FeatureVector)
  (yesFeatures noFeatures : list FeatureVector)
  : list FeatureVector * list FeatureVector :=
  match labels, features with
  | l :: labels', f :: features' =>
      if String.eqb l "YES"
      then separate labels' features' (yesFeatures ++ [f]) noFeatures
      else separate labels' features' yesFeatures (noFeatures ++ [f])
  | _, _ => (yesFeatures, noFeatures)
  end.

(** [train] returns the classifier after the call and the console output,
    that of its call of [invert3x3] included. *)
Definition train (features : list FeatureVector) (labels : list string)
  (self : Classifier) : Classifier * list Console :=
  if (length features =? 0)%nat || negb (length labels =? length features)%nat
  then (self, [Warn "Invalid training data"])
  else
    let '(yesFeatures, noFeatures) := separate labels features [] [] in
    if (length yesFeatures =? 0)%nat || (length noFeatures =? 0)%nat
    then (self, [Warn "Need both YES and NO samples for training"])
    else
      let meanYes := calculateMean yesFeatures in
      let meanNo := calculateMean noFeatures in
      let covMatrix :=
        calculatePooledCovariance yesFeatures noFeatures meanYes meanNo in
      let covInv := invert3x3 covMatrix in
      let meanDiff := centred meanYes meanNo in
      let weights := matrixVectorMultiply covInv meanDiff in
      let meanSum :=
        [mean meanYes + mean meanNo; peak meanYes + peak meanNo;
         latency meanYes + latency meanNo] in
      let bias := -0.5 * dotProduct weights meanSum in
      (mkClassifier weights bias true (threshold self),
       invert3x3Console covMatrix ++
       [Log "LDA trained successfully" [];
        Log "Weights:" weights;
        Log "Bias:" [bias]]).

Definition predict (features : FeatureVector) (self : Classifier)
  : ClassificationResult :=
  if negb (isTrained self) then mkResult NO 0.5
  else
    let featureArray := [mean features; peak features; latency features] in
    let score := dotProduct (weights self) featureArray + bias self in
    let confidence := sigmoid score in
    let prediction :=
      if Rlt_dec (threshold self) confidence then YES else NO in
    mkResult prediction confidence.

Definition setThreshold (t : R) (self : Classifier) : Classifier :=
  mkClassifier (weights self) (bias self) (isTrained self)
    (Rmax 0 (Rmin 1 t)).

(** [DefaultLDAClassifier]: the constructor overwrites the private fields. *)
Definition setWeights (w : list R) (self : Classifier) : Classifier :=
  mkClassifier w (bias self) true (threshold self).

Definition setBias (b : R) (self : Classifier) : Classifier :=
  mkClassifier (weights self) b (isTrained self) (threshold self).

Definition newDefault : Classifier :=
  setBias (-1.2) (setWeights [2.5; 3.0; 0.5] new).

End LDA.

(** ** EEG signal simulation service *)

Module EEGSignal.

Local Open Scope R_scope.

(** [Math.random()] is modelled by a tape of the values it will return, each
    in [[0, 1)].  A computation that draws reads the tape from the front and
    fails when the tape runs out. *)
Definition Rand (A : Type) : Type := list R -> option (A * list R).

Definition ret {A : Type} (a : A) : Rand A := fun tape => Some (a, tape).

Definition bind {A B : Type} (m : Rand A) (k : A -> Rand B) : Rand B :=
  fun tape =>
    match m tape with
    | Some (a, tape') => k a tape'
    | None => None
    end.

Notation "x <- m ;; k" := (bind m (fun x => k))
  (at level 61, m at next level, right associativity).

Definition random : Rand R :=
  fun tape =>
    match tape with
    | [] => None
    | u :: tape' => Some (u, tape')
    end.

(** [while (u === 0) u = Math.random();] *)
Fixpoint redrawWhileZero (u : R) (tape : list R) {struct tape}
  : option (R * list R) :=
  if Req_dec_T u 0 then
    match tape with
    | [] => None
    | v :: tape' => redrawWhileZero v tape'
    end
  else Some (u, tape).

(** The Box-Muller value computed from the two accepted draws. *)
Definition boxMuller (u1 u2 : R) : R :=
  sqrt (-2.0 * ln u1) * cos (2.0 * PI * u2).

Definition generateGaussianNoise (mean stdDev : R) : Rand R :=
  u1 <- random ;;
  u2 <- random ;;
  u1 <- redrawWhileZero u1 ;;
  u2 <- redrawWhileZero u2 ;;
  let z0 := boxMuller u1 u2 in
  ret (z0 * stdDev + mean).

Inductive SignalType : Type := target | nontarget.

(** [samplingRate], [duration] and [noiseLevel] are optional fields. *)
Record SignalSimulationParams : Type := mkParams {
  type : SignalType;
  samplingRate : option R;
  duration : option R;
  noiseLevel : option R
}.

Record EEGSignalResponse : Type := mkResponse {
  timestamps : list R;
  rawSignal : list R
}.

(** [x || d] on an optional number: the default replaces a missing field and
    also the number [0]. *)
Definition orDefault (x : option R) (d : R) : R :=
  match x with
  | Some v => if Req_dec_T v 0 then d else v
  | None => d
  end.

(** The P300-like component added to a target sample at time [timeMs]. *)
Definition gaussianComponent (timeMs : R) : R :=
  let mu := 450 in
  let sigma := 75 in
  let peakAmplitude := 5.0 in
  peakAmplitude * exp (- ((timeMs - mu) / sigma) ^ 2 / 2).

Definition inP300Window (timeMs : R) : bool :=
  if Rle_dec 300 timeMs then (if Rle_dec timeMs 600 then true else false)
  else false.

(** The amplitude of sample [i], from its baseline noise. *)
Definition amplitudeOf (ty : SignalType) (timestamps : list R) (i : nat)
  (baselineNoise : R) : R :=
  match ty with
  | target =>
      let timeMs := nth i timestamps 0 in
      if inP300Window timeMs
      then baselineNoise + gaussianComponent timeMs
      else baselineNoise
  | nontarget => baselineNoise
  end.

(** The second loop of [generateEEGSignal], over the indices [indices]. *)
Fixpoint signalLoop (ty : SignalType) (noise : R) (timestamps : list R)
  (indices : list nat) (rawSignal : list R) : Rand (list R) :=
  match indices with
  | [] => ret rawSignal
  | i :: indices' =>
      baselineNoise <- generateGaussianNoise 0 noise ;;
      let amplitude := amplitudeOf ty timestamps i baselineNoise in
      signalLoop ty noise timestamps indices' (rawSignal ++ [amplitude])
  end.

Definition effSamplingRate (params : SignalSimulationParams) : R :=
  orDefault (samplingRate params) 250.

Definition effDuration (params : SignalSimulationParams) : R :=
  orDefault (duration params) 1000.

Definition effNoiseLevel (params : SignalSimulationParams) : R :=
  orDefault (noiseLevel params) 0.5.

(** [Math.floor((samplingRate * duration) / 1000)]; a [for] loop bounded by
    it runs [Z.to_nat] of it many times. *)
Definition numSamples (params : SignalSimulationParams) : Z :=
  Int_part (effSamplingRate params * effDuration params / 1000).

Definition generateEEGSignal (params : SignalSimulationParams)
  : Rand EEGSignalResponse :=
  let samplingRate := effSamplingRate params in
  let noiseLevel := effNoiseLevel params in
  let n := Z.to_nat (numSamples params) in
  let timestamps := map (fun i => INR i * 1000 / samplingRate) (seq 0 n) in
  rawSignal <- signalLoop (type params) noiseLevel timestamps (seq 0 n) [] ;;
  ret (mkResponse timestamps rawSignal).

End EEGSignal.

(** ** featureExtractionService.ts: the batch variant *)

Module FeatureExtractionBatch.

Import FeatureExtraction.

(** [signals.map((signal, idx) => extractFeatures(signal, timestampsList[idx]))]
    from index [idx] on.  Where [timestampsList[idx]] is missing,
    [findClosestIndex] reads [array[0]] of [undefined] and the call throws:
    [None]. *)
Fixpoint mapSignals (signals : list (list Q)) (idx : nat)
  (timestampsList : list (list Q)) : option (list FeatureVector) :=
  match signals with
  | [] => Some []
  | signal :: rest =>
      match nth_error timestampsList idx with
      | None => None
      | Some timestamps =>
          match mapSignals rest (S idx) timestampsList with
          | None => None
          | Some features =>
              Some (extractFeatures signal timestamps :: features)
          end
      end
  end.

Definition extractFeaturesFromMultiple (signals timestampsList : list (list Q))
  : option (list FeatureVector) :=
  mapSignals signals 0 timestampsList.

End FeatureExtractionBatch.

(** ** Session routes and the session functions of decisionLogicService.ts

    The persistence layer is modelled by the session record itself: the
    trials of a session in the order of their creation, with the unique key
    (session, trial number) of the schema, and the one calibration state
    that [createSession] creates with the session. *)

Module SessionRoutes.

Import DecisionLogic.

Record Trial : Type := mkTrial {
  trialNumber : Z;
  targetType : string;
  responseTime : Z;
  accuracy : bool;
  predictions : list Prediction
}.

Record CalibrationState : Type := mkCalibration {
  flashSpeed : Q;
  objectCount : Z;
  recentAccuracy : Q;
  confidenceThreshold : Q
}.

Record Session : Type := mkSession {
  trials : list Trial;
  calibration : CalibrationState;
  totalTrials : Z;
  sessionAccuracy : Q
}.

(** [createSession]: flash speed 1.0 and object count 3 are given, the other
    columns take the defaults of the schema. *)
Definition createSession : Session :=
  mkSession [] (mkCalibration 1.0 3 0.5 0.5) 0 0.

(** The [accuracy] field written by [recordTrial]. *)
Definition isCorrect (targetType prediction : string) : bool :=
  (String.eqb targetType "target" && String.eqb prediction "YES")
  || (String.eqb targetType "nontarget" && String.eqb prediction "NO").

(** [prisma.trial.upsert]: the trial with this number is updated (response
    time, accuracy, one more prediction) or a new trial is created. *)
Fixpoint upsertTrial (trials : list Trial) (n : Z) (ty prediction : string)
  (confidence : Q) (responseTime : Z) : list Trial :=
  match trials with
  | [] =>
      [mkTrial n ty responseTime (isCorrect ty prediction)
         [mkPrediction prediction confidence]]
  | t :: rest =>
      if (trialNumber t =? n)%Z then
        mkTrial (trialNumber t) (targetType t) responseTime
          (isCorrect ty prediction)
          (predictions t ++ [mkPrediction prediction confidence]) :: rest
      else t :: upsertTrial rest n ty prediction confidence responseTime
  end.

(** [trials.filter(t => t.accuracy).length / trials.length], with [whenEmpty]
    for an empty list. *)
Definition correctRatio (trials : list Trial) (whenEmpty : Q) : Q :=
  if (0 <? length trials)%nat then
    inject_Z (Z.of_nat (length (filter accuracy trials)))
    / inject_Z (Z.of_nat (length trials))
  else whenEmpty.

Definition recordTrial (session : Session) (n : Z) (ty prediction : string)
  (confidence : Q) (responseTime : Z) : Session :=
  let trials := upsertTrial (trials session) n ty prediction confidence
                  responseTime in
  mkSession trials (calibration session) (Z.of_nat (length trials))
    (correctRatio trials 0).

(** The body of [POST /:sessionId/trials], for requests whose fields, when
    present, have the types of the columns they are stored in: an integer
    trial number and response time, strings for target type and prediction.
    [None] is a field that is missing ([undefined] or [null]); for the
    confidence, which the route tests with [typeof], it is also a value that
    is not a number.  A trial number, target type or prediction of another
    type is outside this model: the route tests these three for truthiness
    only. *)
Record TrialBody : Type := mkBody {
  bodyTrialNumber : option Z;
  bodyTargetType : option string;
  bodyPrediction : option string;
  bodyConfidence : option Q;
  bodyResponseTime : option Z
}.

(** [!trialNumber] and [!targetType]: a missing field, the number 0 and the
    empty string are all rejected. *)
Definition truthyNumber (x : option Z) : option Z :=
  match x with
  | Some v => if (v =? 0)%Z then None else Some v
  | None => None
  end.

Definition truthyString (x : option string) : option string :=
  match x with
  | Some v => if String.eqb v "" then None else Some v
  | None => None
  end.

Record Feedback : Type := mkFeedback {
  notification : string;
  feedbackRecentAccuracy : Q;
  feedbackSessionAccuracy : Q
}.

Inductive Response : Type :=
| BadRequest (error : string)
| Created (calibration : CalibrationState) (feedback : Feedback).

(** [session.trials.slice(-10)] *)
Definition lastTen (trials : list Trial) : list Trial :=
  skipn (length trials - 10) trials.

Definition postTrial (body : TrialBody) (session : Session)
  : Response * Session :=
  match truthyNumber (bodyTrialNumber body), truthyString (bodyTargetType body),
        truthyString (bodyPrediction body), bodyConfidence body with
  | Some n, Some ty, Some prediction, Some confidence =>
      let responseTime :=
        match bodyResponseTime body with Some r => r | None => 0%Z end in
      let session := recordTrial session n ty prediction confidence
                       responseTime in
      let recentTrials := lastTen (trials session) in
      let recent := correctRatio recentTrials 0.5 in
      let cal := calibration session in
      let d := adaptDifficulty recent (flashSpeed cal) (objectCount cal) in
      let updated :=
        mkCalibration (newFlashSpeed d) (newObjectCount d) recent
          (confidenceThreshold cal) in
      (Created updated
         (mkFeedback (DecisionLogic.notification d) recent
            (sessionAccuracy session)),
       mkSession (trials session) updated (totalTrials session)
         (sessionAccuracy session))
  | _, _, _, _ =>
      (BadRequest
         "Missing required fields: trialNumber, targetType, prediction, confidence",
       session)
  end.

(** A session after a sequence of requests. *)
Fixpoint postTrials (bodies : list TrialBody) (session : Session) : Session :=
  match bodies with
  | [] => session
  | body :: rest => postTrials rest (snd (postTrial body session))
  end.

(** [POST /:sessionId/smooth-predictions]; [None] for the body field stands
    for a value that is not an array, [None] as result for the status 400. *)
Definition postSmoothPredictions (predictions : option (list Prediction))
  : option Smoothed :=
  match predictions with
  | Some (p :: rest) =>
      let predictions := p :: rest in
      Some (smoothPredictions predictions
              (Z.min 5 (Z.of_nat (length predictions))))
  | _ => None
  end.

End SessionRoutes.

(** ** EEG signal simulation service: training data *)

Module TrainingData.

Import EEGSignal.

Local Open Scope R_scope.

(** One of the two loops of [generateTrainingData]: [count] more signals of
    class [ty], pushed on [data] with their label. *)
Fixpoint generateLoop (count : nat) (ty : SignalType) (noiseLevel : R)
  (data : list (EEGSignalResponse * SignalType))
  : Rand (list (EEGSignalResponse * SignalType)) :=
  match count with
  | O => ret data
  | S count' =>
      signal <- generateEEGSignal (mkParams ty None None (Some noiseLevel)) ;;
      generateLoop count' ty noiseLevel (data ++ [(signal, ty)])
  end.

(** The counts are integers; a loop bounded by a count below zero does not
    run. *)
Definition generateTrainingData (targetCount nonTargetCount : Z)
  (noiseLevel : R) : Rand (list (EEGSignalResponse * SignalType)) :=
  data <- generateLoop (Z.to_nat targetCount) target noiseLevel [] ;;
  generateLoop (Z.to_nat nonTargetCount) nontarget noiseLevel data.

End TrainingData.

(** * Reference definitions

    Written after the wording of the specification, for comparison with the
    definitions above. *)

Module Reference.

(** "the last [n] entries, or all of them if there are fewer" *)
Definition lastEntries {A : Type} (n : nat) (l : list A) : list A :=
  rev (firstn n (rev l)).

(** "linearly-weighted average, weight = position index + 1" *)
Definition linearWeightedMean (cs : list Q) : Q :=
  Qsum (map (fun i => inject_Z (Z.of_nat i + 1) * nth i cs 0)
            (seq 0 (length cs)))
  / Qsum (map (fun i => inject_Z (Z.of_nat i + 1)) (seq 0 (length cs))).

(** The same two sums for a window whose first entry has position index
    [i]: the state of the sums after [i] entries have been consumed. *)
Definition weightedFrom (i : nat) (cs : list Q) : Q :=
  Qsum (map (fun j => inject_Z (Z.of_nat (i + j) + 1) * nth j cs 0)
            (seq 0 (length cs))).

Definition weightsFrom (i n : nat) : Q :=
  Qsum (map (fun j => inject_Z (Z.of_nat (i + j) + 1)) (seq 0 n)).

(** "count(YES)" *)
Definition countYes (labels : list string) : Z :=
  Z.of_nat (count_occ string_dec labels "YES").

(** "ceil(n / 2)" on a length *)
Definition ceilHalf (n : nat) : Z := ((Z.of_nat n + 1) / 2)%Z.

(** "absolute difference" of the entry at position [j] to the target *)
Definition distanceAt (array : list Q) (target : Q) (j : nat) : Q :=
  Qabs (nth j array 0 - target).

(** "nearest-timestamp match, ties broken by first occurrence": [idx] is a
    position of [ts] at minimum absolute difference to [t], and every earlier
    position is strictly further away. *)
Definition nearestFirst (ts : list Q) (t : Q) (idx : nat) : Prop :=
  (idx < length ts)%nat /\
  (forall j, (j < length ts)%nat ->
             Qabs (nth idx ts 0 - t) <= Qabs (nth j ts 0 - t)) /\
  (forall j, (j < idx)%nat ->
             Qabs (nth idx ts 0 - t) < Qabs (nth j ts 0 - t)).

(** "a fresh independent draw per sample": the standard normal values that
    successive pairs of draws give. *)
Fixpoint standardDraws (tape : list R) : list R :=
  match tape with
  | u1 :: u2 :: rest => EEGSignal.boxMuller u1 u2 :: standardDraws rest
  | _ => []
  end.

(** "the argument, or its default when it is left out" *)
Definition givenOrDefault (argument : option R) (default value : R) : Prop :=
  argument = Some value \/ (argument = None /\ value = default).

(** "arithmetic mean" *)
Definition arithmeticMean (l : list Q) : Q :=
  fold_right Qplus 0 l / inject_Z (Z.of_nat (length l)).

End Reference.

(** * Concrete inputs used below *)

Module Inputs.

(** The history of the worked example of the smoother. *)
Definition history3 : list DecisionLogic.Prediction :=
  [DecisionLogic.mkPrediction "YES" 0.85;
   DecisionLogic.mkPrediction "YES" 0.72;
   DecisionLogic.mkPrediction "NO" 0.55].

(** A training set with one example labelled ['YES'] and two examples whose
    label is neither ['YES'] nor ['NO']. *)
Definition features3 : list LDA.FeatureVector :=
  [LDA.mkFeatureVector 1 5 450; LDA.mkFeatureVector 0 1 300;
   LDA.mkFeatureVector 0 2 600]%R.

Definition labels3 : list string := ["YES"; "MAYBE"; "MAYBE"].

End Inputs.

(** * Invariants stated below *)

Module Invariants.

Import SessionRoutes.

(** What holds of every session that the trial route can produce. *)
Definition sessionOk (s : Session) : Prop :=
  (0.6 <= flashSpeed (calibration s) /\ flashSpeed (calibration s) <= 1.5) /\
  (3 <= objectCount (calibration s) <= 4)%Z /\
  (0 <= recentAccuracy (calibration s) /\
   recentAccuracy (calibration s) <= 1) /\
  (0 <= sessionAccuracy s /\ sessionAccuracy s <= 1) /\
  totalTrials s = Z.of_nat (length (trials s)) /\
  NoDup (map trialNumber (trials s)) /\
  ~ In 0%Z (map trialNumber (trials s)).

(** Timestamps that never go back. *)
Definition nondecreasing (ts : list Q) : Prop :=
  forall i j, (i <= j)%nat -> (j < length ts)%nat ->
              nth i ts 0 <= nth j ts 0.

(** [z] is the combination [a * x + b * y], sample by sample. *)
Definition combination (a b : Q) (x y z : list Q) : Prop :=
  length x = length z /\ length y = length z /\
  forall i, nth i z 0 == a * nth i x 0 + b * nth i y 0.

(** Every sample of [l] lies between [lo] and [hi]. *)
Definition within (lo hi : Q) (l : list Q) : Prop :=
  forall v, In v l -> lo <= v /\ v <= hi.

(** The features of one class, in the order of the training set: those
    labelled ['YES'], or all the others. *)
Definition classFeatures (yes : bool) (labels : list string)
  (features : list LDA.FeatureVector) : list LDA.FeatureVector :=
  map snd
    (filter (fun lf => Bool.eqb (String.eqb (fst lf) "YES") yes)
       (combine labels features)).

(** The point half way between two feature vectors. *)
Definition midpoint (u v : LDA.FeatureVector) : LDA.FeatureVector :=
  LDA.mkFeatureVector ((LDA.mean u + LDA.mean v) / 2)
    ((LDA.peak u + LDA.peak v) / 2)
    ((LDA.latency u + LDA.latency v) / 2)%R.

(** The determinant of a 3 by 3 matrix, expanded along its first row. *)
Definition determinant (m : LDA.Matrix) : R :=
  (LDA.entry m 0 0
   * (LDA.entry m 1 1 * LDA.entry m 2 2 - LDA.entry m 1 2 * LDA.entry m 2 1)
   - LDA.entry m 0 1
     * (LDA.entry m 1 0 * LDA.entry m 2 2 - LDA.entry m 1 2 * LDA.entry m 2 0)
   + LDA.entry m 0 2
     * (LDA.entry m 1 0 * LDA.entry m 2 1
        - LDA.entry m 1 1 * LDA.entry m 2 0))%R.

(** A 3 by 3 matrix that is symmetric, with a diagonal of at least [d]. *)
Definition symmetricWithDiagonal (d : R) (m : LDA.Matrix) : Prop :=
  exists a b c e f i : R,
    m = [[a; b; c]; [b; e; f]; [c; f; i]] /\
    (d <= a /\ d <= e /\ d <= i)%R.

End Invariants.

(** * Properties *)

(** Linear arithmetic is needed on both number types; the two tactics go by
    the same name in [Lqa] and [Lra]. *)
Ltac qlra := Lqa.lra.
Ltac rlra := Lra.lra.

(** ** Comparisons, minimum and maximum on rationals *)

Lemma Qltb_true (x y : Q) : Qltb x y = true <-> x < y.
Proof.
  unfold Qltb. rewrite negb_true_iff. split; intro H.
  - apply Qnot_le_lt. intro Hle. apply Qle_bool_iff in Hle. congruence.
  - destruct (Qle_bool y x) eqn:E; [|reflexivity].
    apply Qle_bool_iff in E. exfalso. apply (Qlt_not_le _ _ H E).
Qed.

Lemma Qltb_false (x y : Q) : Qltb x y = false <-> y <= x.
Proof.
  unfold Qltb. rewrite negb_false_iff. apply Qle_bool_iff.
Qed.

(** [Math.min] and [Math.max] on two arguments. *)
Lemma Qmin_cases (x y : Q) :
  (x <= y /\ Qmin x y == x) \/ (y <= x /\ Qmin x y == y).
Proof.
  destruct (Q.min_spec x y) as [[H E]|[H E]].
  - left. split; [apply Qlt_le_weak; exact H | exact E].
  - right. split; assumption.
Qed.

Lemma Qmax_cases (x y : Q) :
  (x <= y /\ Qmax x y == y) \/ (y <= x /\ Qmax x y == x).
Proof.
  destruct (Q.max_spec x y) as [[H E]|[H E]].
  - left. split; [apply Qlt_le_weak; exact H | exact E].
  - right. split; assumption.
Qed.

Ltac split_min x y :=
  let H := fresh "Hle" in
  let E := fresh "Emin" in
  destruct (Qmin_cases x y) as [[H E]|[H E]].

Ltac split_max x y :=
  let H := fresh "Hle" in
  let E := fresh "Emax" in
  destruct (Qmax_cases x y) as [[H E]|[H E]].

(** ** Difficulty controller *)

Section AdaptDifficulty.

Import DecisionLogic.

Lemma adaptDifficulty_low_at_floor (a f : Q) :
  a < 0.4 ->
  adaptDifficulty a f 3 =
  mkDifficulty (Qmax 0.6 (Qmax 0.6 (f * 0.9) * 0.85)) 3
    "No worries! We'll take it slower.".
Proof.
  intro Ha. unfold adaptDifficulty.
  assert (H1 : Qltb 0.7 a = false) by (apply Qltb_false; qlra).
  assert (H2 : Qltb a 0.4 = true) by (apply Qltb_true; exact Ha).
  rewrite H1, H2. reflexivity.
Qed.

(** C1 (as amended): at [recentAccuracy = 0.3], [currentFlashSpeed = 1.0],
    [currentObjectCount = 3] the low-performance branch first lowers the
    flash speed to [max(0.6, 1.0 * 0.9) = 0.9] and then, the object count
    being at its floor, multiplies that already lowered speed by [0.85]:
    [newFlashSpeed = max(0.6, 0.9 * 0.85) = 0.765], [newObjectCount = 3]. *)
Theorem adaptDifficulty_03_10_3 :
  let d := adaptDifficulty 0.3 1.0 3 in
  newFlashSpeed d = Qmax 0.6 (Qmax 0.6 (1.0 * 0.9) * 0.85) /\
  newFlashSpeed d == 0.765 /\
  newObjectCount d = 3%Z /\
  notification d = "No worries! We'll take it slower.".
Proof.
  cbv zeta. rewrite adaptDifficulty_low_at_floor by qlra.
  repeat split.
Qed.

(** C1 (as stated) fails: the returned flash speed is not [0.85]. *)
Lemma adaptDifficulty_03_10_3_not_085 :
  ~ (newFlashSpeed (adaptDifficulty 0.3 1.0 3) == 0.85 /\
     newObjectCount (adaptDifficulty 0.3 1.0 3) = 3%Z).
Proof.
  intros [H _]. vm_compute in H. discriminate H.
Qed.

(** The high-performance call of the specification's list of examples. *)
Example adaptDifficulty_08_10_3 :
  let d := adaptDifficulty 0.8 1.0 3 in
  newFlashSpeed d == 1.1 /\ newObjectCount d = 4%Z.
Proof.
  split; reflexivity.
Qed.

Lemma adaptDifficulty_inBounds (a f : Q) (c : Z) :
  inBounds f c ->
  inBounds (newFlashSpeed (adaptDifficulty a f c))
           (newObjectCount (adaptDifficulty a f c)).
Proof.
  unfold inBounds. intros [[Hlo Hhi] Hc].
  unfold adaptDifficulty.
  destruct (Qltb 0.7 a).
  - destruct (c <? 4)%Z eqn:Ec; cbn [newFlashSpeed newObjectCount].
    + apply Z.ltb_lt in Ec.
      split_min 1.5 (f * 1.1); rewrite Emin; split; try lia; qlra.
    + apply Z.ltb_ge in Ec.
      split_min 1.5 (f * 1.1);
        split_min 1.5 (Qmin 1.5 (f * 1.1) * 1.15);
        rewrite Emin0; split; try lia; qlra.
  - destruct (Qltb a 0.4).
    + destruct (3 <? c)%Z eqn:Ec; cbn [newFlashSpeed newObjectCount].
      * apply Z.ltb_lt in Ec.
        split_max 0.6 (f * 0.9); rewrite Emax; split; try lia; qlra.
      * apply Z.ltb_ge in Ec.
        split_max 0.6 (f * 0.9);
          split_max 0.6 (Qmax 0.6 (f * 0.9) * 0.85);
          rewrite Emax0; split; try lia; qlra.
    + cbn [newFlashSpeed newObjectCount]. split; [qlra | lia].
Qed.

Lemma adaptRepeatedly_inBounds (accuracies : list Q) :
  forall (f : Q) (c : Z),
    inBounds f c ->
    inBounds (fst (adaptRepeatedly accuracies f c))
             (snd (adaptRepeatedly accuracies f c)).
Proof.
  induction accuracies as [|a rest IH]; intros f c Hb.
  - exact Hb.
  - cbn [adaptRepeatedly]. apply IH. apply adaptDifficulty_inBounds, Hb.
Qed.

(** C2: from a flash speed in [[0.6, 1.5]] and an object count in [[3, 4]],
    whatever the recent accuracy, [adaptDifficulty] returns a flash speed in
    [[0.6, 1.5]] and an object count in [[3, 4]]; and so does any number of
    successive applications, each fed the result of the one before. *)
Theorem adaptDifficulty_bounds (f : Q) (c : Z) :
  0.6 <= f <= 1.5 ->
  (3 <= c <= 4)%Z ->
  (forall a : Q,
      let d := adaptDifficulty a f c in
      0.6 <= newFlashSpeed d <= 1.5 /\ (3 <= newObjectCount d <= 4)%Z) /\
  (forall accuracies : list Q,
      let r := adaptRepeatedly accuracies f c in
      0.6 <= fst r <= 1.5 /\ (3 <= snd r <= 4)%Z).
Proof.
  intros Hf Hc.
  assert (Hb : inBounds f c) by (split; assumption).
  split.
  - intro a. exact (adaptDifficulty_inBounds a f c Hb).
  - intro accuracies. exact (adaptRepeatedly_inBounds accuracies f c Hb).
Qed.

Lemma adaptDifficulty_bounds_witness :
  let r := adaptRepeatedly [0.9; 0.9; 0.2; 0.5; 0.1] 1.0 3 in
  0.6 <= fst r <= 1.5 /\ (3 <= snd r <= 4)%Z.
Proof.
  refine (proj2 (adaptDifficulty_bounds 1.0 3 _ _) _).
  - split; [vm_compute; discriminate | vm_compute; discriminate].
  - lia.
Defined.

End AdaptDifficulty.

(** ** Sums of rationals *)

Lemma fold_left_Qplus_acc (l : list Q) :
  forall a : Q, fold_left Qplus l a == a + Qsum l.
Proof.
  unfold Qsum. induction l as [|x l IH]; intro a; cbn [fold_left].
  - ring.
  - rewrite (IH (a + x)), (IH (0 + x)). ring.
Qed.

Lemma Qsum_cons (x : Q) (l : list Q) : Qsum (x :: l) == x + Qsum l.
Proof.
  unfold Qsum at 1. cbn [fold_left]. rewrite fold_left_Qplus_acc. ring.
Qed.

Lemma Qsum_fold_right (l : list Q) : Qsum l == fold_right Qplus 0 l.
Proof.
  induction l as [|x l IH].
  - reflexivity.
  - rewrite Qsum_cons, IH. reflexivity.
Qed.

(** ** Trial smoother *)

Section SmoothPredictions.

Import DecisionLogic Reference Inputs.

Lemma weightedFrom_cons (i : nat) (c : Q) (cs : list Q) :
  weightedFrom i (c :: cs) ==
  inject_Z (Z.of_nat i + 1) * c + weightedFrom (S i) cs.
Proof.
  unfold weightedFrom. cbn [length seq map]. rewrite Qsum_cons.
  rewrite Nat.add_0_r. cbn [nth].
  rewrite <- seq_shift, map_map.
  apply Qplus_comp; [reflexivity|].
  erewrite map_ext; [reflexivity|].
  intro j. cbn [nth]. rewrite Nat.add_succ_r. reflexivity.
Qed.

Lemma weightsFrom_succ (i n : nat) :
  weightsFrom i (S n) == inject_Z (Z.of_nat i + 1) + weightsFrom (S i) n.
Proof.
  unfold weightsFrom. cbn [seq map]. rewrite Qsum_cons.
  rewrite Nat.add_0_r.
  rewrite <- seq_shift, map_map.
  apply Qplus_comp; [reflexivity|].
  erewrite map_ext; [reflexivity|].
  intro j. rewrite Nat.add_succ_r. reflexivity.
Qed.

Lemma weight_loop_spec (window : list Prediction) :
  forall (i : nat) (wc ws : Q),
    fst (weight_loop window i wc ws) ==
      wc + weightedFrom i (map confidence window) /\
    snd (weight_loop window i wc ws) == ws + weightsFrom i (length window).
Proof.
  induction window as [|p rest IH]; intros i wc ws.
  - cbn. split; ring.
  - cbn [weight_loop map length].
    destruct (IH (S i) (wc + confidence p * inject_Z (Z.of_nat i + 1))
                 (ws + inject_Z (Z.of_nat i + 1))) as [E1 E2].
    rewrite E1, E2, weightedFrom_cons, weightsFrom_succ.
    split; ring.
Qed.

Lemma window_of_lastEntries (predictions : list Prediction) (w : Z) :
  (0 <= w)%Z ->
  window_of predictions w = lastEntries (Z.to_nat w) predictions.
Proof.
  intro Hw. unfold window_of, lastEntries.
  rewrite firstn_rev, rev_involutive.
  f_equal. lia.
Qed.

Lemma lastEntries_length {A : Type} (n : nat) (l : list A) :
  length (lastEntries n l) = Nat.min n (length l).
Proof.
  unfold lastEntries. rewrite length_rev, length_firstn, length_rev.
  reflexivity.
Qed.

Lemma lastEntries_suffix {A : Type} (n : nat) (l : list A) :
  exists older : list A, l = older ++ lastEntries n l.
Proof.
  unfold lastEntries. exists (rev (skipn n (rev l))).
  rewrite <- rev_app_distr, firstn_skipn, rev_involutive. reflexivity.
Qed.

Lemma Qceiling_half (n : nat) :
  Qceiling (inject_Z (Z.of_nat n) / 2) = ceilHalf n.
Proof.
  unfold ceilHalf, Qceiling, Qfloor, Qdiv, Qmult, Qinv, Qopp, inject_Z.
  cbn [Qnum Qden Pos.mul]. 
  Z.div_mod_to_equations. lia.
Qed.

Lemma filter_isYes_count (window : list Prediction) :
  Z.of_nat (length (filter isYes window)) = countYes (map prediction window).
Proof.
  unfold countYes. f_equal.
  induction window as [|p rest IH]; [reflexivity|].
  cbn [filter map count_occ]. unfold isYes at 1.
  destruct (string_dec (prediction p) "YES") as [E|E].
  - rewrite E, String.eqb_refl. cbn [length]. rewrite IH. reflexivity.
  - apply String.eqb_neq in E. rewrite E. exact IH.
Qed.

Lemma linearWeightedMean_from_zero (cs : list Q) :
  linearWeightedMean cs == weightedFrom 0 cs / weightsFrom 0 (length cs).
Proof.
  unfold linearWeightedMean, weightedFrom, weightsFrom. reflexivity.
Qed.

Lemma smoothPredictions_nonempty (predictions : list Prediction) (w : Z) :
  predictions <> [] ->
  smoothPredictions predictions w =
  let window := window_of predictions w in
  mkSmoothed
    (if (Qceiling (inject_Z (Z.of_nat (length window)) / 2)
         <=? Z.of_nat (length (filter isYes window)))%Z then YES else NO)
    (fst (weight_loop window 0 0 0) / snd (weight_loop window 0 0 0)).
Proof.
  intro Hne. unfold smoothPredictions.
  destruct predictions as [|p ps]; [congruence|].
  cbv zeta. destruct (weight_loop (window_of (p :: ps) w) 0 0 0) as [wc ws].
  reflexivity.
Qed.

(** C7: on an empty history [smoothPredictions] returns [NO] with confidence
    [0.5]; on a non-empty one, with a window size of at least one, the window
    is the last [windowSize] entries (all of them if there are fewer), the
    confidence is the average of the window's confidences weighted by
    position index + 1, a function of the confidences alone, and the
    decision is [YES] exactly when the window holds at least
    [ceil(length / 2)] entries labelled [YES], [NO] otherwise. *)
Theorem smoothPredictions_spec :
  (forall w : Z, smoothPredictions [] w = mkSmoothed NO 0.5) /\
  (forall (predictions : list Prediction) (w : Z),
      predictions <> [] ->
      (0 < w)%Z ->
      let window := lastEntries (Z.to_nat w) predictions in
      let s := smoothPredictions predictions w in
      (exists older, predictions = older ++ window) /\
      length window = Nat.min (Z.to_nat w) (length predictions) /\
      avgConfidence s == linearWeightedMean (map confidence window) /\
      (decision s = YES <->
       (ceilHalf (length window) <= countYes (map prediction window))%Z) /\
      (decision s = NO <->
       ~ (ceilHalf (length window) <= countYes (map prediction window))%Z)).
Proof.
  split; [reflexivity|].
  intros predictions w Hne Hw window s.
  assert (Ew : window_of predictions w = window)
    by (apply window_of_lastEntries; lia).
  assert (Es : s =
    mkSmoothed
      (if (ceilHalf (length window)
           <=? countYes (map prediction window))%Z then YES else NO)
      (fst (weight_loop window 0 0 0) / snd (weight_loop window 0 0 0))).
  { subst s. rewrite smoothPredictions_nonempty by exact Hne.
    cbv zeta. rewrite Ew, Qceiling_half, filter_isYes_count. reflexivity. }
  split; [apply lastEntries_suffix|].
  split; [apply lastEntries_length|].
  rewrite Es. cbn [avgConfidence decision].
  split.
  - destruct (weight_loop_spec window 0 0 0) as [E1 E2].
    rewrite linearWeightedMean_from_zero, length_map, E1, E2.
    apply Qdiv_comp; ring.
  - destruct (ceilHalf (length window)
              <=? countYes (map prediction window))%Z eqn:E.
    + apply Z.leb_le in E. split; split; intro H; try reflexivity;
        try assumption; try discriminate. contradiction.
    + apply Z.leb_gt in E. split; split; intro H; try reflexivity;
        try discriminate; lia.
Qed.

Lemma smoothPredictions_spec_witness :
  let predictions :=
    [mkPrediction "NO" 0.2; mkPrediction "YES" 0.9; mkPrediction "YES" 0.8] in
  let window := lastEntries 2 predictions in
  let s := smoothPredictions predictions 2 in
  (exists older, predictions = older ++ window) /\
  length window = Nat.min 2 (length predictions) /\
  avgConfidence s == linearWeightedMean (map confidence window) /\
  (decision s = YES <->
   (ceilHalf (length window) <= countYes (map prediction window))%Z) /\
  (decision s = NO <->
   ~ (ceilHalf (length window) <= countYes (map prediction window))%Z).
Proof.
  apply (proj2 smoothPredictions_spec
           [mkPrediction "NO" 0.2; mkPrediction "YES" 0.9;
            mkPrediction "YES" 0.8] 2%Z).
  - discriminate.
  - reflexivity.
Defined.

Example smoothPredictions_single :
  smoothPredictions [mkPrediction "YES" 0.9] 5 = mkSmoothed YES 0.9.
Proof.
  reflexivity.
Qed.

(** C3 (as amended): on [[{YES, 0.85}, {YES, 0.72}, {NO, 0.55}]] with window
    size 5 the decision is [YES] (2 of 3 are [YES], and [ceil(3/2) = 2]) and
    the confidence is [(1*0.85 + 2*0.72 + 3*0.55) / (1 + 2 + 3) = 3.94 / 6],
    which is [197/300], about [0.657]. *)
Theorem smoothPredictions_history3 :
  let s := smoothPredictions history3 5 in
  decision s = YES /\
  countYes (map prediction history3) = 2%Z /\ ceilHalf 3 = 2%Z /\
  avgConfidence s == (1 * 0.85 + 2 * 0.72 + 3 * 0.55) / (1 + 2 + 3) /\
  avgConfidence s == 197 # 300 /\
  0.6565 <= avgConfidence s /\ avgConfidence s < 0.6575.
Proof.
  cbv zeta. repeat split; try reflexivity; vm_compute; congruence.
Qed.

(** C3 (as stated) fails: the confidence is further than [0.04] from
    [0.700]. *)
Lemma smoothPredictions_history3_not_0700 :
  ~ (decision (smoothPredictions history3 5) = YES /\
     Qabs (avgConfidence (smoothPredictions history3 5) - 0.700) <= 0.04).
Proof.
  intros [_ H]. vm_compute in H. apply H. reflexivity.
Qed.

End SmoothPredictions.

(** ** Arrays *)

Lemma skipn_cons_nth {A : Type} (d : A) (l : list A) :
  forall (i : nat) (x : A) (rest : list A),
    skipn i l = x :: rest ->
    (i < length l)%nat /\ nth i l d = x /\ skipn (S i) l = rest.
Proof.
  induction l as [|y l IH]; intros i x rest H.
  - destruct i; discriminate H.
  - destruct i as [|i].
    + cbn in H. injection H as -> ->. cbn. repeat split. lia.
    + cbn [skipn] in H. destruct (IH i x rest H) as (Hlt & Hn & Hs).
      cbn [length nth]. repeat split; [lia | exact Hn | exact Hs].
Qed.

Lemma slice_length {A : Type} (a : list A) (start end_ : nat) :
  length (slice a start end_) = Nat.min (end_ - start) (length a - start).
Proof.
  unfold slice. rewrite length_firstn, length_skipn. reflexivity.
Qed.

Lemma slice_nth {A : Type} (d : A) (a : list A) (start end_ k : nat) :
  (k < length (slice a start end_))%nat ->
  nth k (slice a start end_) d = nth (start + k) a d.
Proof.
  rewrite slice_length. intro Hk. unfold slice.
  rewrite nth_firstn.
  destruct (Nat.ltb_spec k (end_ - start)) as [_|Hge]; [|lia].
  apply nth_skipn.
Qed.

Lemma findIndex_Some {A : Type} (d : A) (pred : A -> bool) (a : list A) :
  forall k : nat,
    findIndex pred a = Some k ->
    (k < length a)%nat /\ pred (nth k a d) = true /\
    (forall j, (j < k)%nat -> pred (nth j a d) = false).
Proof.
  induction a as [|x a IH]; intros k H; [discriminate H|].
  cbn [findIndex] in H. destruct (pred x) eqn:Ex.
  - injection H as <-. cbn. repeat split; [lia | exact Ex | intros j Hj; lia].
  - destruct (findIndex pred a) as [k'|]; [|discriminate H].
    injection H as <-. destruct (IH k' eq_refl) as (Hlt & Hp & Hbefore).
    cbn [length nth]. repeat split; [lia | exact Hp |].
    intros [|j] Hj; [exact Ex | apply Hbefore; lia].
Qed.

Lemma findIndex_None {A : Type} (pred : A -> bool) (a : list A) :
  findIndex pred a = None -> forall x, In x a -> pred x = false.
Proof.
  induction a as [|y a IH]; intros H x Hin; [destruct Hin|].
  cbn [findIndex] in H. destruct (pred y) eqn:Ey; [discriminate H|].
  destruct (findIndex pred a); [discriminate H|].
  destruct Hin as [<-|Hin]; [exact Ey | apply IH; [reflexivity | exact Hin]].
Qed.

(** ** Feature extractor *)

Section ExtractFeatures.

Import FeatureExtraction Reference.

Variable array : list Q.
Variable target : Q.

Lemma closest_loop_spec (rest : list Q) :
  forall (i : nat) (minDiff : Q) (c : nat),
    skipn i array = rest ->
    (i <= length array)%nat ->
    (c < i)%nat ->
    minDiff = distanceAt array target c ->
    (forall j, (j < i)%nat -> minDiff <= distanceAt array target j) ->
    (forall j, (j < c)%nat -> minDiff < distanceAt array target j) ->
    nearestFirst array target (closest_loop rest target i minDiff c).
Proof.
  induction rest as [|a rest IH]; intros i minDiff c Hs Hi Hc Hm Hall Hfirst.
  - cbn [closest_loop].
    assert (Hlen : i = length array).
    { apply (f_equal (@length Q)) in Hs. rewrite length_skipn in Hs.
      cbn in Hs. lia. }
    subst i. unfold nearestFirst. unfold distanceAt in *. rewrite <- Hm.
    repeat split; [exact Hc | exact Hall | exact Hfirst].
  - destruct (skipn_cons_nth 0 array i a rest Hs) as (Hlt & Hn & Hs').
    cbn [closest_loop].
    assert (Ed : Qabs (a - target) = distanceAt array target i)
      by (unfold distanceAt; rewrite Hn; reflexivity).
    rewrite Ed.
    destruct (Qltb (distanceAt array target i) minDiff) eqn:E.
    + apply Qltb_true in E.
      apply IH; try assumption; try lia; try reflexivity.
      * intros j Hj. destruct (Nat.eq_dec j i) as [->|Hne].
        -- apply Qle_refl.
        -- apply Qlt_le_weak. apply Qlt_le_trans with minDiff; [exact E|].
           apply Hall. lia.
      * intros j Hj. apply Qlt_le_trans with minDiff; [exact E|].
        apply Hall. exact Hj.
    + apply Qltb_false in E.
      apply IH; try assumption; try lia.
      intros j Hj. destruct (Nat.eq_dec j i) as [->|Hne].
      * exact E.
      * apply Hall. lia.
Qed.

End ExtractFeatures.

Section ExtractFeaturesSpec.

Import FeatureExtraction Reference.

Lemma findClosestIndex_nearestFirst (array : list Q) (target : Q) :
  array <> [] -> nearestFirst array target (findClosestIndex array target).
Proof.
  intro Hne. unfold findClosestIndex.
  destruct array as [|a0 rest]; [congruence|].
  apply closest_loop_spec.
  - reflexivity.
  - cbn. lia.
  - lia.
  - reflexivity.
  - intros j Hj. assert (j = 0)%nat as -> by lia. apply Qle_refl.
  - intros j Hj. lia.
Qed.

Lemma maxOf_upper (xs : list Q) :
  forall x : Q,
    x <= maxOf x xs /\ (forall y, In y xs -> y <= maxOf x xs).
Proof.
  unfold maxOf. induction xs as [|z xs IH]; intro x; cbn [fold_left].
  - split; [apply Qle_refl | intros y []].
  - destruct (IH (Qmax x z)) as [H1 H2]. split.
    + apply Qle_trans with (Qmax x z); [apply Q.le_max_l | exact H1].
    + intros y [<-|Hin].
      * apply Qle_trans with (Qmax x z); [apply Q.le_max_r | exact H1].
      * apply H2, Hin.
Qed.

Lemma maxOf_attained (xs : list Q) :
  forall x : Q, exists y, In y (x :: xs) /\ y == maxOf x xs.
Proof.
  unfold maxOf. induction xs as [|z xs IH]; intro x; cbn [fold_left].
  - exists x. split; [left; reflexivity | reflexivity].
  - destruct (IH (Qmax x z)) as (y & [Hy|Hy] & E).
    + subst y. split_max x z.
      * exists z. split; [right; left; reflexivity|].
        rewrite <- E. symmetry. exact Emax.
      * exists x. split; [left; reflexivity|].
        rewrite <- E. symmetry. exact Emax.
    + exists y. split; [right; right; exact Hy | exact E].
Qed.

Lemma orZero_nth (ts : list Q) (k : nat) :
  (k < length ts)%nat -> orZero (nth_error ts k) == nth k ts 0.
Proof.
  intro Hk. rewrite (nth_error_nth' ts 0 Hk). unfold orZero.
  destruct (Qeq_bool (nth k ts 0) 0) eqn:E; [|reflexivity].
  apply Qeq_bool_iff in E. symmetry. exact E.
Qed.

(** C8: for a signal and its timestamps (two arrays of the same length),
    the window runs from the first index nearest to 300 ms through the first
    index nearest to 600 ms; when it is not empty, [mean] is the arithmetic
    mean of the window samples, [peak] is the largest absolute value in the
    window, and [latency] is the timestamp of the first window sample whose
    absolute value equals [peak]. *)
Theorem extractFeatures_spec (filteredSignal timestamps : list Q) :
  length filteredSignal = length timestamps ->
  let startIdx := findClosestIndex timestamps 300 in
  let endIdx := findClosestIndex timestamps 600 in
  let window := slice filteredSignal startIdx (endIdx + 1) in
  let fv := extractFeatures filteredSignal timestamps in
  window <> [] ->
  nearestFirst timestamps 300 startIdx /\
  nearestFirst timestamps 600 endIdx /\
  length window = (endIdx + 1 - startIdx)%nat /\
  (forall k, (k < length window)%nat ->
             nth k window 0 = nth (startIdx + k) filteredSignal 0) /\
  mean fv == arithmeticMean window /\
  (forall s, In s window -> Qabs s <= peak fv) /\
  (exists s, In s window /\ Qabs s == peak fv) /\
  (exists k, (k < length window)%nat /\
             Qabs (nth k window 0) == peak fv /\
             (forall j, (j < k)%nat -> ~ Qabs (nth j window 0) == peak fv) /\
             latency fv == nth (startIdx + k) timestamps 0).
Proof.
  intros Hlen startIdx endIdx window fv Hne.
  assert (Hts : timestamps <> []).
  { intro E. subst timestamps. destruct filteredSignal; [|discriminate Hlen].
    apply Hne. subst window. unfold slice. rewrite skipn_nil, firstn_nil.
    reflexivity. }
  assert (Hs : nearestFirst timestamps 300 startIdx)
    by (apply findClosestIndex_nearestFirst, Hts).
  assert (He : nearestFirst timestamps 600 endIdx)
    by (apply findClosestIndex_nearestFirst, Hts).
  assert (Hwl : length window = (endIdx + 1 - startIdx)%nat).
  { subst window. rewrite slice_length. destruct He as (He & _). lia. }
  assert (Hwt : length (slice timestamps startIdx (endIdx + 1)) =
                length window).
  { subst window. rewrite !slice_length, Hlen. reflexivity. }
  split; [exact Hs|]. split; [exact He|]. split; [exact Hwl|].
  split; [intros k Hk; apply slice_nth; exact Hk|].
  subst fv. unfold extractFeatures.
  fold P300_START_MS P300_END_MS.
  change (findClosestIndex timestamps P300_START_MS) with startIdx.
  change (findClosestIndex timestamps P300_END_MS) with endIdx.
  fold window.
  destruct window as [|s0 rest] eqn:Ew; [congruence|].
  cbv zeta. cbn [mean peak latency].
  set (pk := maxOf (Qabs s0) (map Qabs rest)).
  split.
  { unfold arithmeticMean. apply Qdiv_comp; [apply Qsum_fold_right | reflexivity]. }
  assert (Hup : forall s, In s (s0 :: rest) -> Qabs s <= pk).
  { intros s [<-|Hin].
    - apply (proj1 (maxOf_upper (map Qabs rest) (Qabs s0))).
    - apply (proj2 (maxOf_upper (map Qabs rest) (Qabs s0))).
      apply in_map, Hin. }
  assert (Hat : exists s, In s (s0 :: rest) /\ Qabs s == pk).
  { destruct (maxOf_attained (map Qabs rest) (Qabs s0)) as (y & Hy & E).
    change (Qabs s0 :: map Qabs rest) with (map Qabs (s0 :: rest)) in Hy.
    apply in_map_iff in Hy. destruct Hy as (s & <- & Hin).
    exists s. split; [exact Hin | exact E]. }
  split; [exact Hup|]. split; [exact Hat|].
  destruct (findIndex (fun s => Qeq_bool (Qabs s) pk) (s0 :: rest))
    as [k|] eqn:Ef.
  - destruct (findIndex_Some 0 _ _ k Ef) as (Hk & Hp & Hbefore).
    exists k. split; [exact Hk|]. split; [apply Qeq_bool_iff, Hp|].
    split.
    + intros j Hj Hj'. apply Qeq_bool_iff in Hj'.
      rewrite (Hbefore j Hj) in Hj'. discriminate Hj'.
    + rewrite orZero_nth by (rewrite Hwt; exact Hk).
      rewrite slice_nth by (rewrite Hwt; exact Hk). reflexivity.
  - exfalso. destruct Hat as (s & Hin & E).
    pose proof (findIndex_None _ _ Ef s Hin) as Hf. cbv beta in Hf.
    apply Qeq_bool_neq in Hf. contradiction.
Qed.

(** On an all-zero signal the latency is the timestamp at the start of the
    window; here 200 ms and 400 ms are equally near to 300 ms and the first
    is taken. *)
Example extractFeatures_all_zero :
  let fv := extractFeatures [0; 0; 0; 0] [0; 200; 400; 600] in
  mean fv == 0 /\ peak fv == 0 /\ latency fv == 200.
Proof.
  repeat split.
Qed.

Lemma extractFeatures_spec_witness :
  let signal := [0; 1; -3; 2; 3; 0.5] in
  let ts := [0; 250; 300; 450; 600; 750] in
  exists k, (k < 3)%nat /\
            latency (extractFeatures signal ts) == nth (2 + k) ts 0.
Proof.
  destruct (extractFeatures_spec [0; 1; -3; 2; 3; 0.5]
              [0; 250; 300; 450; 600; 750] eq_refl)
    as (_ & _ & _ & _ & _ & _ & _ & k & Hk & _ & _ & Hl).
  - vm_compute. discriminate.
  - exists k. split; [exact Hk | exact Hl].
Defined.

End ExtractFeaturesSpec.

(** ** Preprocessor *)

Section Preprocess.

Import Preprocessing Reference.

Lemma for_range_invariant {S : Type} (P : S -> Prop) (body : nat -> S -> S)
  (lo hi : nat) (s : S) :
  P s -> (forall i s', P s' -> P (body i s')) -> P (for_range lo hi body s).
Proof.
  intros H0 Hstep. unfold for_range.
  generalize (seq lo (hi - lo)). intro l. revert s H0.
  induction l as [|i l IH]; intros s H0; cbn [fold_left].
  - exact H0.
  - apply IH, Hstep, H0.
Qed.

Lemma assign_length {A : Type} (a : list A) :
  forall (i : nat) (v : A), length (assign a i v) = length a.
Proof.
  induction a as [|x a IH]; intros [|i] v; cbn; try reflexivity.
  rewrite IH. reflexivity.
Qed.

Lemma movingAveragePass_length (filtered : list Q) :
  length (movingAveragePass filtered) = length filtered.
Proof.
  unfold movingAveragePass. rewrite length_map, length_seq. reflexivity.
Qed.

Lemma passes_length (order : nat) :
  forall filtered : list Q, length (passes order filtered) = length filtered.
Proof.
  induction order as [|order IH]; intro filtered; cbn [passes].
  - reflexivity.
  - rewrite IH. apply movingAveragePass_length.
Qed.

Lemma applyBandpassFilter_length (signal : list Q) (order : nat) :
  length (applyBandpassFilter signal order) = length signal.
Proof.
  unfold applyBandpassFilter.
  apply (for_range_invariant (fun f => length f = length signal)).
  - apply passes_length.
  - intros i f Hf. rewrite assign_length. exact Hf.
Qed.

Lemma applyNotchFilter_length (signal : list Q) (samplingRate : Q) :
  length (applyNotchFilter signal samplingRate) = length signal.
Proof.
  unfold applyNotchFilter. cbv zeta.
  apply (for_range_invariant (fun f => length f = length signal)).
  - reflexivity.
  - intros i f Hf. rewrite assign_length. exact Hf.
Qed.

Lemma sum_of_shifted (m : Q) (l : list Q) :
  fold_right Qplus 0 (map (fun sample => sample - m) l) ==
  fold_right Qplus 0 l - inject_Z (Z.of_nat (length l)) * m.
Proof.
  induction l as [|x l IH].
  - cbn. ring.
  - cbn [map fold_right length]. rewrite IH.
    rewrite Nat2Z.inj_succ. unfold Z.succ. rewrite inject_Z_plus. ring.
Qed.

Lemma centred_mean_zero (l : list Q) :
  l <> [] ->
  let mean := Qsum l / inject_Z (Z.of_nat (length l)) in
  arithmeticMean (map (fun sample => sample - mean) l) == 0.
Proof.
  intros Hne mean. unfold arithmeticMean.
  assert (Hn : ~ inject_Z (Z.of_nat (length l)) == 0).
  { destruct l as [|x l]; [congruence|].
    intro E. unfold Qeq, inject_Z in E. cbn [Qnum Qden length] in E. lia. }
  rewrite sum_of_shifted, length_map. subst mean.
  rewrite Qsum_fold_right. field. exact Hn.
Qed.

(** C9: for a non-empty input (and a sampling rate that is not negative),
    the filtered signal returned by [preprocessSignal] has the length of the
    input and, in exact arithmetic, arithmetic mean 0. *)
Theorem preprocessSignal_length_mean (raw : list Q) (samplingRate : Q) :
  raw <> [] ->
  0 <= samplingRate ->
  let out := filteredSignal (preprocessSignal raw samplingRate) in
  length out = length raw /\ arithmeticMean out == 0.
Proof.
  intros Hne _ out. subst out. unfold preprocessSignal.
  cbv zeta. cbn [filteredSignal].
  assert (Hl : length (applyNotchFilter (applyBandpassFilter raw 2)
                         samplingRate) = length raw)
    by (rewrite applyNotchFilter_length; apply applyBandpassFilter_length).
  split.
  - rewrite length_map. exact Hl.
  - apply centred_mean_zero. intro E. rewrite E in Hl.
    destruct raw; [congruence | discriminate Hl].
Qed.

Example preprocessSignal_two_samples :
  map Qred (filteredSignal (preprocessSignal [1; 2] 250)) =
  map Qred [0.7125; -0.7125].
Proof.
  vm_compute. reflexivity.
Qed.

Lemma preprocessSignal_length_mean_witness :
  let out := filteredSignal (preprocessSignal [1; 2; 4; 8; 16; 32; 64] 250) in
  length out = 7%nat /\ arithmeticMean out == 0.
Proof.
  apply (preprocessSignal_length_mean [1; 2; 4; 8; 16; 32; 64] 250).
  - discriminate.
  - vm_compute. discriminate.
Defined.

End Preprocess.

(** ** Classifier *)

Section Classifier.

Import LDA Inputs.

Local Open Scope R_scope.

Lemma dotProduct_3 (w0 w1 w2 x0 x1 x2 : R) :
  dotProduct [w0; w1; w2] [x0; x1; x2] = w0 * x0 + w1 * x1 + w2 * x2.
Proof.
  unfold dotProduct. cbn [dot_from nth]. ring.
Qed.

Lemma setThreshold_clamped (t : R) (self : Classifier) :
  0 <= threshold (setThreshold t self) <= 1.
Proof.
  cbn [setThreshold threshold]. unfold Rmax, Rmin.
  destruct (Rle_dec 1 t); destruct (Rle_dec 0 _); rlra.
Qed.

Lemma setThreshold_inside (t : R) (self : Classifier) :
  0 <= t <= 1 -> threshold (setThreshold t self) = t.
Proof.
  intro H. cbn [setThreshold threshold]. unfold Rmax, Rmin.
  destruct (Rle_dec 1 t); destruct (Rle_dec 0 _); rlra.
Qed.

(** C5: an untrained classifier predicts [NO] with confidence [0.5]; a
    trained one returns [confidence = sigmoid(w.x + b)] for
    [x = (mean, peak, latency)], with [sigmoid(s) = 1 / (1 + e^-s)], and the
    label [YES] exactly when the confidence is above the threshold, [NO]
    otherwise.  The threshold starts at [0.5] and [setThreshold] stores its
    argument clamped to [[0, 1]] and nothing else. *)
Theorem predict_spec :
  threshold new = 0.5 /\
  (forall (t : R) (self : Classifier),
      setThreshold t self =
        mkClassifier (weights self) (bias self) (isTrained self)
          (Rmax 0 (Rmin 1 t)) /\
      0 <= threshold (setThreshold t self) <= 1 /\
      (0 <= t <= 1 -> threshold (setThreshold t self) = t)) /\
  (forall (features : FeatureVector) (self : Classifier),
      isTrained self = false ->
      predict features self = mkResult NO 0.5) /\
  (forall (features : FeatureVector) (self : Classifier) (w0 w1 w2 : R),
      isTrained self = true ->
      weights self = [w0; w1; w2] ->
      let score :=
        w0 * mean features + w1 * peak features + w2 * latency features
        + bias self in
      let r := predict features self in
      confidence r = 1 / (1 + exp (- score)) /\
      (prediction r = YES <-> confidence r > threshold self) /\
      (prediction r = NO <-> ~ confidence r > threshold self)).
Proof.
  split; [reflexivity|].
  split.
  { intros t self. split; [reflexivity|].
    split; [apply setThreshold_clamped | apply setThreshold_inside]. }
  split.
  { intros features self H. unfold predict. rewrite H. reflexivity. }
  intros features self w0 w1 w2 Ht Hw score r.
  subst r. unfold predict. rewrite Ht, Hw. cbn [negb]. cbv zeta.
  rewrite dotProduct_3. fold score. cbn [confidence prediction].
  unfold sigmoid.
  split; [reflexivity|].
  destruct (Rlt_dec (threshold self) (1 / (1 + exp (- score)))) as [H|H].
  - split; split; intro H'; try reflexivity; try discriminate.
    + exact H.
    + contradiction.
  - split; split; intro H'; try reflexivity; try discriminate.
    + contradiction.
    + exact H.
Qed.

Lemma predict_spec_witness :
  let r := predict (mkFeatureVector 1 5 450) newDefault in
  confidence r = 1 / (1 + exp (- (2.5 * 1 + 3.0 * 5 + 0.5 * 450 + -1.2))) /\
  (prediction r = YES <-> confidence r > 0.5) /\
  (prediction r = NO <-> ~ confidence r > 0.5).
Proof.
  exact (proj2 (proj2 (proj2 predict_spec)) (mkFeatureVector 1 5 450)
           newDefault 2.5 3.0 0.5 eq_refl eq_refl).
Defined.

(** The weights stay a vector of three numbers. *)
Lemma train_weights_length (features : list FeatureVector)
  (labels : list string) (self : Classifier) :
  length (weights self) = 3%nat ->
  length (weights (fst (train features labels self))) = 3%nat.
Proof.
  intro H. unfold train.
  destruct (_ || _)%bool; [exact H|].
  destruct (separate labels features [] []) as [yes no].
  destruct (_ || _)%bool; [exact H|].
  reflexivity.
Qed.

Lemma separate_without_yes (labels : list string) :
  forall (features yes no : list FeatureVector),
    ~ In "YES" labels ->
    fst (separate labels features yes no) = yes.
Proof.
  induction labels as [|l labels IH]; intros features yes no Hno.
  - reflexivity.
  - destruct features as [|f features]; [reflexivity|].
    cbn [separate].
    destruct (String.eqb_spec l "YES") as [E|E].
    + exfalso. apply Hno. left. exact E.
    + apply IH. intro Hin. apply Hno. right. exact Hin.
Qed.

Lemma separate_all_yes (labels : list string) :
  forall (features yes no : list FeatureVector),
    (forall l, In l labels -> l = "YES") ->
    snd (separate labels features yes no) = no.
Proof.
  induction labels as [|l labels IH]; intros features yes no Hall.
  - reflexivity.
  - destruct features as [|f features]; [reflexivity|].
    cbn [separate].
    rewrite (Hall l (or_introl eq_refl)). rewrite String.eqb_refl.
    apply IH. intros l' Hin. apply Hall. right. exact Hin.
Qed.

(** C6: with an empty feature list, with a label list of another length
    than the feature list, or with a class without example, [train] leaves
    weights, bias, threshold and trained flag as they were and writes one
    warning.  The classes are those of the guard of [train]: an example is of
    class YES when its label is ['YES'] and of class NO otherwise, so class
    YES is without example when no label is ['YES'], and class NO when every
    label is. *)
Theorem train_rejects (features : list FeatureVector) (labels : list string)
  (self : Classifier) :
  features = [] \/
  length labels <> length features \/
  ~ In "YES" labels \/
  (forall l, In l labels -> l = "YES") ->
  let after := fst (train features labels self) in
  (exists message, train features labels self = (self, [Warn message])) /\
  weights after = weights self /\ bias after = bias self /\
  threshold after = threshold self /\ isTrained after = isTrained self.
Proof.
  intros H after.
  assert (E : exists message,
             train features labels self = (self, [Warn message])).
  { unfold train.
    destruct ((length features =? 0)%nat
              || negb (length labels =? length features)%nat)%bool eqn:G.
    - eexists. reflexivity.
    - apply orb_false_elim in G. destruct G as [G1 G2].
      apply Nat.eqb_neq in G1. apply negb_false_iff, Nat.eqb_eq in G2.
      destruct H as [H|[H|[H|H]]].
      + subst features. cbn in G1. congruence.
      + congruence.
      + pose proof (separate_without_yes labels features [] [] H) as Hy.
        destruct (separate labels features [] []) as [yes no].
        cbn [fst] in Hy. subst yes. cbn [length Nat.eqb orb].
        eexists. reflexivity.
      + pose proof (separate_all_yes labels features [] [] H) as Hn.
        destruct (separate labels features [] []) as [yes no].
        cbn [snd] in Hn. subst no. cbn [length Nat.eqb].
        rewrite orb_true_r. eexists. reflexivity. }
  split; [exact E|].
  subst after. destruct E as [message E]. rewrite E. cbn [fst].
  repeat split.
Qed.

Lemma train_rejects_witness :
  let after := fst (train features3 ["NO"; "NO"; "NO"] newDefault) in
  (exists message,
      train features3 ["NO"; "NO"; "NO"] newDefault =
      (newDefault, [Warn message])) /\
  weights after = weights newDefault /\ bias after = bias newDefault /\
  threshold after = threshold newDefault /\
  isTrained after = isTrained newDefault.
Proof.
  apply (train_rejects features3 ["NO"; "NO"; "NO"] newDefault).
  right. right. left.
  intros [H|[H|[H|[]]]]; discriminate H.
Defined.

(** Remark on the classes of [train]: a label that is neither ['YES'] nor
    ['NO'] makes an example of class NO.  The training set [features3],
    [labels3] (labels ['YES'] and ['MAYBE']) holds no label ['NO'] and is
    fitted all the same. *)
Lemma train_without_NO_label_updates :
  ~ (features3 = [] \/
     length labels3 <> length features3 \/
     ~ In "YES" labels3 \/
     ~ In "NO" labels3 ->
     fst (train features3 labels3 new) = new).
Proof.
  intro H.
  assert (Hno : ~ In "NO" labels3).
  { intros [E|[E|[E|[]]]]; discriminate E. }
  specialize (H (or_intror (or_intror (or_intror Hno)))).
  apply (f_equal isTrained) in H. discriminate H.
Qed.

End Classifier.

(** ** Signal simulator *)

Section Simulator.

Import EEGSignal Reference.

Local Open Scope R_scope.

Lemma redrawWhileZero_nonzero (u : R) (tape : list R) :
  u <> 0 -> redrawWhileZero u tape = Some (u, tape).
Proof.
  intro H. destruct tape; cbn [redrawWhileZero];
    destruct (Req_dec_T u 0); congruence.
Qed.

Lemma generateGaussianNoise_two_draws (mean stdDev u1 u2 : R)
  (tape : list R) :
  u1 <> 0 -> u2 <> 0 ->
  generateGaussianNoise mean stdDev (u1 :: u2 :: tape) =
  Some (boxMuller u1 u2 * stdDev + mean, tape).
Proof.
  intros H1 H2. unfold generateGaussianNoise, bind, random, ret.
  rewrite (redrawWhileZero_nonzero u1 tape H1).
  rewrite (redrawWhileZero_nonzero u2 tape H2).
  reflexivity.
Qed.

Lemma signalLoop_length (ty : SignalType) (noise : R) (ts : list R)
  (indices : list nat) :
  forall (raw : list R) (tape : list R) (out tape' : list R),
    signalLoop ty noise ts indices raw tape = Some (out, tape') ->
    length out = (length raw + length indices)%nat.
Proof.
  induction indices as [|i indices IH]; intros raw tape out tape' H.
  - cbn in H. injection H as <- _. cbn. lia.
  - cbn [signalLoop] in H. unfold bind at 1 in H.
    destruct (generateGaussianNoise 0 noise tape) as [[b tape1]|];
      [|discriminate H].
    apply IH in H. rewrite H, length_app. cbn [length]. lia.
Qed.

Lemma signalLoop_runs (ty : SignalType) (noise : R) (ts : list R)
  (indices : list nat) :
  forall (raw : list R) (tape : list R),
    Forall (fun u => u <> 0) tape ->
    (2 * length indices <= length tape)%nat ->
    exists out tape', signalLoop ty noise ts indices raw tape
                      = Some (out, tape').
Proof.
  induction indices as [|i indices IH]; intros raw tape Hnz Hlen.
  - exists raw, tape. reflexivity.
  - destruct tape as [|u1 [|u2 tape]]; cbn [length] in Hlen; try lia.
    inversion Hnz as [|? ? H1 Hnz1]; subst.
    inversion Hnz1 as [|? ? H2 Hnz2]; subst.
    cbn [signalLoop]. unfold bind at 1.
    rewrite (generateGaussianNoise_two_draws 0 noise u1 u2 tape H1 H2).
    apply IH; [exact Hnz2 | lia].
Qed.

Lemma orDefault_given (argument : option R) (default value : R) :
  givenOrDefault argument default value ->
  value <> 0 ->
  orDefault argument default = value.
Proof.
  intros [->|[-> ->]] Hnz; cbn [orDefault]; [|reflexivity].
  destruct (Req_dec_T value 0); congruence.
Qed.

Lemma nth_map_seq {A : Type} (f : nat -> A) (n i : nat) (d : A) :
  (i < n)%nat -> nth i (map f (seq 0 n)) d = f i.
Proof.
  intro Hi.
  rewrite (nth_indep _ d (f O)) by (rewrite length_map, length_seq; exact Hi).
  rewrite map_nth, seq_nth by exact Hi. reflexivity.
Qed.

Lemma Int_part_nonneg (x : R) : 0 <= x -> (0 <= Int_part x)%Z.
Proof.
  intro Hx. destruct (base_Int_part x) as [_ H].
  assert (H' : -1 < IZR (Int_part x)) by rlra.
  apply lt_IZR in H'. lia.
Qed.

(** C10: with a positive sampling rate and a positive duration (each the
    argument, or its default when it is left out), whatever the class and
    the noise level, a run of [generateEEGSignal] that has enough random
    draws returns, and what it returns has
    [floor(samplingRate * duration / 1000)] timestamps and as many samples;
    the timestamps are [i * 1000 / samplingRate], strictly increasing and
    [1000 / samplingRate] apart. *)
Theorem generateEEGSignal_series (params : SignalSimulationParams)
  (sr dur : R) (tape : list R) :
  givenOrDefault (samplingRate params) 250 sr ->
  givenOrDefault (duration params) 1000 dur ->
  0 < sr ->
  0 < dur ->
  let n := Int_part (sr * dur / 1000) in
  (Forall (fun u => u <> 0) tape ->
   (2 * Z.to_nat n <= length tape)%nat ->
   exists out tape', generateEEGSignal params tape = Some (out, tape')) /\
  (forall out tape',
      generateEEGSignal params tape = Some (out, tape') ->
      let ts := timestamps out in
      Z.of_nat (length ts) = n /\
      Z.of_nat (length (rawSignal out)) = n /\
      (forall i, (i < length ts)%nat -> nth i ts 0 = INR i * 1000 / sr) /\
      (forall i j, (i < j)%nat -> (j < length ts)%nat ->
                   nth i ts 0 < nth j ts 0) /\
      (forall i, (S i < length ts)%nat ->
                 nth (S i) ts 0 - nth i ts 0 = 1000 / sr)).
Proof.
  intros Gs Gd Hsr Hdur n.
  assert (Es : effSamplingRate params = sr)
    by (apply orDefault_given; [exact Gs | rlra]).
  assert (Ed : effDuration params = dur)
    by (apply orDefault_given; [exact Gd | rlra]).
  assert (En : numSamples params = n)
    by (unfold numSamples; rewrite Es, Ed; reflexivity).
  assert (Hn : (0 <= n)%Z).
  { apply Int_part_nonneg. apply Rmult_le_pos; [|rlra].
    apply Rmult_le_pos; rlra. }
  unfold generateEEGSignal. rewrite Es, En. cbv zeta.
  set (tsl := map (fun i => INR i * 1000 / sr) (seq 0 (Z.to_nat n))).
  split.
  - intros Hnz Hlen.
    destruct (signalLoop_runs (type params) (effNoiseLevel params) tsl
                (seq 0 (Z.to_nat n)) [] tape Hnz) as (raw & tape' & E).
    { rewrite length_seq. exact Hlen. }
    unfold bind, ret. rewrite E. eexists. eexists. reflexivity.
  - intros out tape' H. unfold bind, ret in H.
    destruct (signalLoop (type params) (effNoiseLevel params) tsl
                (seq 0 (Z.to_nat n)) [] tape) as [[raw tape1]|] eqn:E;
      [|discriminate H].
    injection H as <- _. cbn [timestamps rawSignal].
    apply signalLoop_length in E. rewrite length_seq in E. cbn [length] in E.
    assert (Hl : length tsl = Z.to_nat n)
      by (subst tsl; rewrite length_map, length_seq; reflexivity).
    assert (Hnth : forall i, (i < length tsl)%nat ->
                             nth i tsl 0 = INR i * 1000 / sr).
    { intros i Hi. subst tsl. rewrite length_map, length_seq in Hi.
      exact (nth_map_seq (fun k => INR k * 1000 / sr) (Z.to_nat n) i 0 Hi). }
    split; [rewrite Hl; lia|]. split; [rewrite E; lia|].
    split; [exact Hnth|]. split.
    + intros i j Hij Hj. rewrite !Hnth by lia.
      apply lt_INR in Hij.
      unfold Rdiv. apply Rmult_lt_compat_r; [apply Rinv_0_lt_compat, Hsr|].
      rlra.
    + intros i Hi. rewrite !Hnth by lia. rewrite S_INR. field. rlra.
Qed.

Lemma generateEEGSignal_series_witness :
  exists out tape',
    generateEEGSignal (mkParams target (Some 2) None (Some 0.3))
      [0.5; 0.25; 0.5; 0.75] = Some (out, tape').
Proof.
  refine (proj1 (generateEEGSignal_series
                   (mkParams target (Some 2) None (Some 0.3)) 2 1000
                   [0.5; 0.25; 0.5; 0.75] _ _ _ _) _ _).
  - left. reflexivity.
  - right. split; reflexivity.
  - rlra.
  - rlra.
  - repeat constructor; rlra.
  - replace (2 * 1000 / 1000) with (IZR 2) by rlra.
    rewrite <- (Int_part_spec (IZR 2) 2) by rlra.
    cbn. lia.
Defined.

(** With draws that are never zero, sample [i] is the [i]-th standard normal
    value of the tape scaled by the noise level in use, plus the P300-like
    component where the class and the time call for it. *)
Lemma signalLoop_samples (ty : SignalType) (noise : R) (ts : list R)
  (indices : list nat) :
  forall (raw : list R) (tape : list R),
    Forall (fun u => u <> 0) tape ->
    (2 * length indices <= length tape)%nat ->
    signalLoop ty noise ts indices raw tape =
    Some (raw ++ map (fun iz => amplitudeOf ty ts (fst iz)
                                  (snd iz * noise + 0))
                     (combine indices (standardDraws tape)),
          skipn (2 * length indices) tape).
Proof.
  induction indices as [|i indices IH]; intros raw tape Hnz Hlen.
  - cbn. rewrite app_nil_r. reflexivity.
  - destruct tape as [|u1 [|u2 tape]]; cbn [length] in Hlen; try lia.
    inversion Hnz as [|? ? H1 Hnz1]; subst.
    inversion Hnz1 as [|? ? H2 Hnz2]; subst.
    cbn [signalLoop]. unfold bind at 1.
    rewrite (generateGaussianNoise_two_draws 0 noise u1 u2 tape H1 H2).
    rewrite IH by (try exact Hnz2; lia).
    cbn [standardDraws combine map fst snd length].
    rewrite <- app_assoc. cbn [app].
    replace (2 * S (length indices))%nat
      with (S (S (2 * length indices))) by lia.
    reflexivity.
Qed.

(** A whole run on draws that are never zero.  The standard deviation of
    the noise is the noise level in use: the argument when it is given and
    not zero, [0.5] otherwise. *)
Lemma generateEEGSignal_samples (params : SignalSimulationParams)
  (tape : list R) :
  let n := Z.to_nat (numSamples params) in
  let ts := map (fun i => INR i * 1000 / effSamplingRate params) (seq 0 n) in
  Forall (fun u => u <> 0) tape ->
  (2 * n <= length tape)%nat ->
  generateEEGSignal params tape =
  Some (mkResponse ts
          (map (fun iz => amplitudeOf (type params) ts (fst iz)
                            (snd iz * effNoiseLevel params + 0))
               (combine (seq 0 n) (standardDraws tape))),
        skipn (2 * n) tape).
Proof.
  intros n ts Hnz Hlen. unfold generateEEGSignal. cbv zeta.
  fold n. fold ts. unfold bind.
  rewrite signalLoop_samples by (rewrite ?length_seq; assumption).
  rewrite length_seq. reflexivity.
Qed.

Lemma orDefault_zero (default : R) : orDefault (Some 0) default = default.
Proof.
  cbn [orDefault]. destruct (Req_dec_T 0 0); congruence.
Qed.

Lemma orDefault_nonzero (v default : R) :
  v <> 0 -> orDefault (Some v) default = v.
Proof.
  intro H. cbn [orDefault]. destruct (Req_dec_T v 0); congruence.
Qed.

Lemma boxMuller_half_half : boxMuller (1 / 2) (1 / 2) < 0.
Proof.
  unfold boxMuller.
  replace (2.0 * PI * (1 / 2)) with PI by rlra.
  rewrite cos_PI.
  assert (Hln : ln (1 / 2) < 0).
  { rewrite <- ln_1. apply ln_increasing; rlra. }
  assert (Hs : 0 < sqrt (-2.0 * ln (1 / 2))) by (apply sqrt_lt_R0; rlra).
  rlra.
Qed.

(** C4, evaluated at [noiseLevel = 0]: the noise level in use is then the
    default [0.5], so the run is the run at [noiseLevel = 0.5]; a non-target
    epoch of one sample drawn from [u1 = u2 = 1/2] holds
    [0.5 * boxMuller(1/2, 1/2)], which is not zero. *)
Theorem generateEEGSignal_noise_zero :
  (forall (ty : SignalType) (sr dur : option R) (tape : list R),
      generateEEGSignal (mkParams ty sr dur (Some 0)) tape =
      generateEEGSignal (mkParams ty sr dur (Some 0.5)) tape) /\
  generateEEGSignal (mkParams nontarget (Some 1) (Some 1000) (Some 0))
    [1 / 2; 1 / 2] =
  Some (mkResponse [INR 0 * 1000 / 1] [boxMuller (1 / 2) (1 / 2) * 0.5 + 0],
        []) /\
  boxMuller (1 / 2) (1 / 2) * 0.5 + 0 <> 0.
Proof.
  assert (Hnoise : forall ty sr dur,
             effNoiseLevel (mkParams ty sr dur (Some 0)) = 0.5)
    by (intros; apply orDefault_zero).
  split; [|split].
  - intros ty sr dur tape. unfold generateEEGSignal.
    rewrite Hnoise. unfold effNoiseLevel at 1. cbn [noiseLevel].
    rewrite orDefault_nonzero by rlra. reflexivity.
  - unfold generateEEGSignal. rewrite Hnoise.
    unfold numSamples, effSamplingRate, effDuration.
    cbn [samplingRate duration type].
    rewrite !orDefault_nonzero by rlra.
    replace (1 * 1000 / 1000) with (IZR 1) by rlra.
    rewrite <- (Int_part_spec (IZR 1) 1) by rlra.
    change (Z.to_nat 1) with 1%nat. cbn [seq map signalLoop].
    unfold bind.
    rewrite generateGaussianNoise_two_draws by rlra.
    reflexivity.
  - pose proof boxMuller_half_half. rlra.
Qed.

End Simulator.

(** * Further properties *)

(** ** Trial smoother: range of the confidence, ties, empty windows *)

Section SmootherRange.

Import DecisionLogic.

Lemma weight_loop_range (lo hi : Q) (window : list Prediction) :
  forall (i : nat) (wc ws : Q),
    (forall p, In p window -> lo <= confidence p <= hi) ->
    lo * ws <= wc <= hi * ws ->
    let r := weight_loop window i wc ws in
    lo * snd r <= fst r <= hi * snd r /\
    ws <= snd r /\ (window <> [] -> ws < snd r).
Proof.
  induction window as [|p rest IH]; intros i wc ws Hin Hacc r.
  - subst r. cbn. split; [exact Hacc|]. split; [qlra | congruence].
  - subst r. cbn [weight_loop].
    set (weight := inject_Z (Z.of_nat i + 1)).
    assert (Hw : 0 < weight).
    { unfold weight. change 0 with (inject_Z 0). rewrite <- Zlt_Qlt. lia. }
    destruct (Hin p (or_introl eq_refl)) as [Hlo Hhi].
    assert (H1 : lo * weight <= confidence p * weight)
      by (apply Qmult_le_compat_r; [exact Hlo | apply Qlt_le_weak, Hw]).
    assert (H2 : confidence p * weight <= hi * weight)
      by (apply Qmult_le_compat_r; [exact Hhi | apply Qlt_le_weak, Hw]).
    destruct (IH (S i) (wc + confidence p * weight) (ws + weight))
      as (Hr & Hmono & _).
    + intros q Hq. apply Hin. right. exact Hq.
    + split; qlra.
    + split; [exact Hr|]. split; [qlra | intros _; qlra].
Qed.

Lemma window_of_nonempty (predictions : list Prediction) (w : Z) :
  predictions <> [] -> (0 < w)%Z -> window_of predictions w <> [].
Proof.
  intros Hne Hw E. apply (f_equal (@length _)) in E.
  rewrite window_of_lastEntries, lastEntries_length in E by lia.
  destruct predictions; [congruence|]. cbn [length] in E. lia.
Qed.

(** X1: whenever the confidences in the window all lie between [lo] and
    [hi], so does the smoothed confidence (window size at least one); in
    particular confidences in [[0, 1]] give a confidence in [[0, 1]]. *)
Theorem smoothPredictions_confidence_range
  (predictions : list Prediction) (w : Z) (lo hi : Q) :
  predictions <> [] ->
  (0 < w)%Z ->
  (forall p, In p (window_of predictions w) -> lo <= confidence p <= hi) ->
  lo <= avgConfidence (smoothPredictions predictions w) <= hi.
Proof.
  intros Hne Hw Hin.
  rewrite smoothPredictions_nonempty by exact Hne. cbv zeta.
  cbn [avgConfidence].
  destruct (weight_loop_range lo hi (window_of predictions w) 0 0 0 Hin)
    as (Hr & _ & Hpos); [split; qlra|].
  specialize (Hpos (window_of_nonempty predictions w Hne Hw)).
  destruct Hr as [Hr1 Hr2].
  split.
  - apply Qle_shift_div_l; assumption.
  - apply Qle_shift_div_r; assumption.
Qed.

Lemma smoothPredictions_confidence_range_witness :
  0 <= avgConfidence
         (smoothPredictions
            [mkPrediction "YES" 0.9; mkPrediction "NO" 0.3;
             mkPrediction "YES" 1] 2) <= 1.
Proof.
  apply (smoothPredictions_confidence_range
           [mkPrediction "YES" 0.9; mkPrediction "NO" 0.3;
            mkPrediction "YES" 1] 2 0 1).
  - discriminate.
  - reflexivity.
  - intros p [<-|[<-|[]]]; cbn [confidence]; split; vm_compute; discriminate.
Defined.

(** X2: the vote is a majority with ties going to [YES]: the decision is
    [YES] exactly when at least half of the window is labelled ['YES'], and
    [NO] exactly when fewer than half are.  With a window size of zero or
    less the window is empty and the decision is [YES], whatever the
    labels. *)
Theorem smoothPredictions_majority (predictions : list Prediction) (w : Z) :
  predictions <> [] ->
  let window := window_of predictions w in
  let yes := length (filter isYes window) in
  (decision (smoothPredictions predictions w) = YES <->
   (length window <= 2 * yes)%nat) /\
  (decision (smoothPredictions predictions w) = NO <->
   (2 * yes < length window)%nat) /\
  ((w <= 0)%Z -> window = [] /\
                 decision (smoothPredictions predictions w) = YES).
Proof.
  intros Hne window yes.
  rewrite smoothPredictions_nonempty by exact Hne. cbv zeta.
  fold window. fold yes. cbn [decision].
  rewrite Qceiling_half. unfold Reference.ceilHalf.
  assert (Hc : forall b : bool,
             ((if b then YES else NO) = YES <-> b = true) /\
             ((if b then YES else NO) = NO <-> b = false)).
  { intros []; repeat split; congruence. }
  destruct (Hc (((Z.of_nat (length window) + 1) / 2 <=? Z.of_nat yes)%Z))
    as [HY HN].
  rewrite HY, HN, Z.leb_le, Z.leb_gt.
  split; [|split].
  - split; intro H; [|Z.div_mod_to_equations]; try lia.
    Z.div_mod_to_equations. lia.
  - split; intro H; Z.div_mod_to_equations; lia.
  - intro Hw.
    assert (Ew : window = []).
    { subst window. unfold window_of. apply skipn_all2. lia. }
    split; [exact Ew|]. subst yes. rewrite Ew. reflexivity.
Qed.

Lemma smoothPredictions_majority_witness :
  decision (smoothPredictions
              [mkPrediction "NO" 0.1; mkPrediction "NO" 0.2] (-1)) = YES.
Proof.
  apply (smoothPredictions_majority
           [mkPrediction "NO" 0.1; mkPrediction "NO" 0.2] (-1)).
  - discriminate.
  - lia.
Defined.

End SmootherRange.

(** ** Difficulty controller: direction and saturation *)

Section AdaptDirection.

Import DecisionLogic.

Lemma adaptDifficulty_high (a f : Q) (c : Z) :
  0.7 < a ->
  adaptDifficulty a f c =
  if (c <? 4)%Z then
    mkDifficulty (Qmin 1.5 (f * 1.1)) (c + 1)
      "Great job! Adding more objects."
  else
    mkDifficulty (Qmin 1.5 (Qmin 1.5 (f * 1.1) * 1.15)) c
      "Excellent! Speeding up the game.".
Proof.
  intro Ha. unfold adaptDifficulty.
  apply Qltb_true in Ha. rewrite Ha. reflexivity.
Qed.

Lemma adaptDifficulty_low (a f : Q) (c : Z) :
  a < 0.4 ->
  adaptDifficulty a f c =
  if (3 <? c)%Z then
    mkDifficulty (Qmax 0.6 (f * 0.9)) (c - 1)
      "Let's slow down a bit. Removing an object."
  else
    mkDifficulty (Qmax 0.6 (Qmax 0.6 (f * 0.9) * 0.85)) c
      "No worries! We'll take it slower.".
Proof.
  intro Ha. unfold adaptDifficulty.
  assert (H1 : Qltb 0.7 a = false) by (apply Qltb_false; qlra).
  apply Qltb_true in Ha. rewrite H1, Ha. reflexivity.
Qed.

Lemma adaptDifficulty_mid (a f : Q) (c : Z) :
  0.4 <= a -> a <= 0.7 ->
  adaptDifficulty a f c =
  mkDifficulty f c "You're doing great! Keep going!".
Proof.
  intros H1 H2. unfold adaptDifficulty.
  apply Qltb_false in H1. apply Qltb_false in H2. rewrite H1, H2.
  reflexivity.
Qed.

(** X3: from a state within the bounds, an accuracy above 0.7 never lowers
    the flash speed or the object count, an accuracy below 0.4 never raises
    them, and an accuracy from 0.4 to 0.7 leaves both as they are. *)
Theorem adaptDifficulty_direction (a f : Q) (c : Z) :
  0.6 <= f <= 1.5 ->
  (3 <= c <= 4)%Z ->
  let d := adaptDifficulty a f c in
  (0.7 < a -> f <= newFlashSpeed d /\ (c <= newObjectCount d)%Z) /\
  (a < 0.4 -> newFlashSpeed d <= f /\ (newObjectCount d <= c)%Z) /\
  (0.4 <= a <= 0.7 -> newFlashSpeed d = f /\ newObjectCount d = c).
Proof.
  intros [Hlo Hhi] Hc d. subst d. split; [|split].
  - intro Ha. rewrite adaptDifficulty_high by exact Ha.
    destruct (c <? 4)%Z; cbn [newFlashSpeed newObjectCount].
    + split; [|lia]. split_min 1.5 (f * 1.1); rewrite Emin; qlra.
    + split; [|lia].
      split_min 1.5 (f * 1.1);
        split_min 1.5 (Qmin 1.5 (f * 1.1) * 1.15); rewrite Emin0; qlra.
  - intro Ha. rewrite adaptDifficulty_low by exact Ha.
    destruct (3 <? c)%Z; cbn [newFlashSpeed newObjectCount].
    + split; [|lia]. split_max 0.6 (f * 0.9); rewrite Emax; qlra.
    + split; [|lia].
      split_max 0.6 (f * 0.9);
        split_max 0.6 (Qmax 0.6 (f * 0.9) * 0.85); rewrite Emax0; qlra.
  - intros [H1 H2]. rewrite adaptDifficulty_mid by assumption.
    split; reflexivity.
Qed.

Lemma adaptDifficulty_direction_witness :
  1.0 <= newFlashSpeed (adaptDifficulty 0.9 1.0 4) /\
  (4 <= newObjectCount (adaptDifficulty 0.9 1.0 4))%Z.
Proof.
  apply (adaptDifficulty_direction 0.9 1.0 4).
  - split; vm_compute; discriminate.
  - lia.
  - reflexivity.
Defined.

(** One high-accuracy call from object count 4 raises a lower bound [l] on
    the flash speed to [min(1.5, l * 1.265)]. *)
Lemma adaptDifficulty_high_at_4 (a f l : Q) :
  0.7 < a -> l <= f -> f <= 1.5 ->
  let d := adaptDifficulty a f 4 in
  newObjectCount d = 4%Z /\
  Qmin 1.5 (l * 1.265) <= newFlashSpeed d /\ newFlashSpeed d <= 1.5.
Proof.
  intros Ha Hl Hf d. subst d. rewrite adaptDifficulty_high by exact Ha.
  cbn [Z.ltb Z.compare Pos.compare Pos.compare_cont newFlashSpeed
       newObjectCount].
  split; [reflexivity|].
  split_min 1.5 (l * 1.265); split_min 1.5 (f * 1.1);
    split_min 1.5 (Qmin 1.5 (f * 1.1) * 1.15);
    rewrite Emin, Emin1; split; qlra.
Qed.

Lemma adaptDifficulty_low_at_3 (a f u : Q) :
  a < 0.4 -> f <= u -> 0.6 <= f ->
  let d := adaptDifficulty a f 3 in
  newObjectCount d = 3%Z /\
  newFlashSpeed d <= Qmax 0.6 (u * 0.765) /\ 0.6 <= newFlashSpeed d.
Proof.
  intros Ha Hu Hf d. subst d. rewrite adaptDifficulty_low by exact Ha.
  cbn [Z.ltb Z.compare Pos.compare Pos.compare_cont newFlashSpeed
       newObjectCount].
  split; [reflexivity|].
  split_max 0.6 (u * 0.765); split_max 0.6 (f * 0.9);
    split_max 0.6 (Qmax 0.6 (f * 0.9) * 0.85);
    rewrite Emax, Emax1; split; qlra.
Qed.

Lemma high_step (a f l l' : Q) :
  0.7 < a -> l <= f -> f <= 1.5 -> l' <= 1.5 -> l' <= l * 1.265 ->
  newObjectCount (adaptDifficulty a f 4) = 4%Z /\
  l' <= newFlashSpeed (adaptDifficulty a f 4) /\
  newFlashSpeed (adaptDifficulty a f 4) <= 1.5.
Proof.
  intros Ha Hl Hf H1 H2.
  destruct (adaptDifficulty_high_at_4 a f l Ha Hl Hf) as (Hc & Hlow & Hup).
  split; [exact Hc|]. split; [|exact Hup].
  split_min 1.5 (l * 1.265); rewrite Emin in Hlow; qlra.
Qed.

Lemma low_step (a f u u' : Q) :
  a < 0.4 -> f <= u -> 0.6 <= f -> 0.6 <= u' -> u * 0.765 <= u' ->
  newObjectCount (adaptDifficulty a f 3) = 3%Z /\
  newFlashSpeed (adaptDifficulty a f 3) <= u' /\
  0.6 <= newFlashSpeed (adaptDifficulty a f 3).
Proof.
  intros Ha Hu Hf H1 H2.
  destruct (adaptDifficulty_low_at_3 a f u Ha Hu Hf) as (Hc & Hup & Hlow).
  split; [exact Hc|]. split; [|exact Hlow].
  split_max 0.6 (u * 0.765); rewrite Emax in Hup; qlra.
Qed.

(** The first high-accuracy call from any state within the bounds. *)
Lemma high_first_step (a f : Q) (c : Z) :
  0.7 < a -> 0.6 <= f <= 1.5 -> (3 <= c <= 4)%Z ->
  newObjectCount (adaptDifficulty a f c) = 4%Z /\
  0.66 <= newFlashSpeed (adaptDifficulty a f c) /\
  newFlashSpeed (adaptDifficulty a f c) <= 1.5.
Proof.
  intros Ha [Hlo Hhi] Hc.
  assert (E : c = 3%Z \/ c = 4%Z) by lia. destruct E as [-> | ->].
  - rewrite adaptDifficulty_high by exact Ha.
    cbn [Z.ltb Z.compare Pos.compare Pos.compare_cont newFlashSpeed
         newObjectCount Z.add Pos.add Pos.succ].
    split; [reflexivity|].
    split_min 1.5 (f * 1.1); rewrite Emin; split; qlra.
  - apply (high_step a f 0.6 0.66); try assumption; qlra.
Qed.

Lemma low_first_step (a f : Q) (c : Z) :
  a < 0.4 -> 0.6 <= f <= 1.5 -> (3 <= c <= 4)%Z ->
  newObjectCount (adaptDifficulty a f c) = 3%Z /\
  newFlashSpeed (adaptDifficulty a f c) <= 1.35 /\
  0.6 <= newFlashSpeed (adaptDifficulty a f c).
Proof.
  intros Ha [Hlo Hhi] Hc.
  assert (E : c = 3%Z \/ c = 4%Z) by lia. destruct E as [-> | ->].
  - apply (low_step a f 1.5 1.35); try assumption; qlra.
  - rewrite adaptDifficulty_low by exact Ha.
    cbn [Z.ltb Z.compare Pos.compare Pos.compare_cont newFlashSpeed
         newObjectCount Z.sub Z.add Z.opp Z.pos_sub Pos.pred_double].
    split; [reflexivity|].
    split_max 0.6 (f * 0.9); rewrite Emax; split; qlra.
Qed.

Lemma ceiling_stays (accuracies : list Q) :
  forall f : Q,
    Forall (fun a => 0.7 < a) accuracies ->
    f == 1.5 ->
    fst (adaptRepeatedly accuracies f 4) == 1.5 /\
    snd (adaptRepeatedly accuracies f 4) = 4%Z.
Proof.
  induction accuracies as [|a rest IH]; intros f Hall Hf.
  - split; [exact Hf | reflexivity].
  - inversion Hall as [|? ? Ha Hrest]; subst. cbn [adaptRepeatedly].
    destruct (high_step a f 1.5 1.5 Ha) as (Hc & H1 & H2); try qlra.
    rewrite Hc. apply IH; [exact Hrest | qlra].
Qed.

Lemma floor_stays (accuracies : list Q) :
  forall f : Q,
    Forall (fun a => a < 0.4) accuracies ->
    f == 0.6 ->
    fst (adaptRepeatedly accuracies f 3) == 0.6 /\
    snd (adaptRepeatedly accuracies f 3) = 3%Z.
Proof.
  induction accuracies as [|a rest IH]; intros f Hall Hf.
  - split; [exact Hf | reflexivity].
  - inversion Hall as [|? ? Ha Hrest]; subst. cbn [adaptRepeatedly].
    destruct (low_step a f 0.6 0.6 Ha) as (Hc & H1 & H2); try qlra.
    rewrite Hc. apply IH; [exact Hrest | qlra].
Qed.

(** X4: five calls in a row with an accuracy above 0.7 take any state
    within the bounds to the ceiling, flash speed 1.5 and object count 4, and
    further such calls keep it there. *)
Theorem adaptRepeatedly_reaches_ceiling (accuracies : list Q) (f : Q)
  (c : Z) :
  0.6 <= f <= 1.5 ->
  (3 <= c <= 4)%Z ->
  Forall (fun a => 0.7 < a) accuracies ->
  (5 <= length accuracies)%nat ->
  fst (adaptRepeatedly accuracies f c) == 1.5 /\
  snd (adaptRepeatedly accuracies f c) = 4%Z.
Proof.
  intros Hf Hc Hall Hlen.
  destruct accuracies as [|a1 [|a2 [|a3 [|a4 [|a5 rest]]]]];
    cbn [length] in Hlen; try lia.
  repeat match goal with
         | H : Forall _ (_ :: _) |- _ =>
             let Ha := fresh "Ha" in
             let Hr := fresh "Hr" in
             inversion H as [|? ? Ha Hr]; subst; clear H
         end.
  cbn [adaptRepeatedly].
  destruct (high_first_step a1 f c) as (C1 & L1 & U1); try assumption.
  rewrite C1.
  destruct (high_step a2 _ 0.66 0.83 Ha0 L1 U1) as (C2 & L2 & U2); try qlra.
  rewrite C2.
  destruct (high_step a3 _ 0.83 1.04 Ha1 L2 U2) as (C3 & L3 & U3); try qlra.
  rewrite C3.
  destruct (high_step a4 _ 1.04 1.31 Ha2 L3 U3) as (C4 & L4 & U4); try qlra.
  rewrite C4.
  destruct (high_step a5 _ 1.31 1.5 Ha3 L4 U4) as (C5 & L5 & U5); try qlra.
  rewrite C5.
  apply ceiling_stays; [assumption | qlra].
Qed.

Lemma adaptRepeatedly_reaches_ceiling_witness :
  fst (adaptRepeatedly [0.8; 0.9; 1; 0.75; 0.8; 0.9] 0.6 3) == 1.5 /\
  snd (adaptRepeatedly [0.8; 0.9; 1; 0.75; 0.8; 0.9] 0.6 3) = 4%Z.
Proof.
  apply (adaptRepeatedly_reaches_ceiling [0.8; 0.9; 1; 0.75; 0.8; 0.9] 0.6 3).
  - split; vm_compute; discriminate.
  - lia.
  - repeat constructor.
  - cbn. lia.
Defined.

(** X5: five calls in a row with an accuracy below 0.4 take any state
    within the bounds to the floor, flash speed 0.6 and object count 3, and
    further such calls keep it there. *)
Theorem adaptRepeatedly_reaches_floor (accuracies : list Q) (f : Q) (c : Z) :
  0.6 <= f <= 1.5 ->
  (3 <= c <= 4)%Z ->
  Forall (fun a => a < 0.4) accuracies ->
  (5 <= length accuracies)%nat ->
  fst (adaptRepeatedly accuracies f c) == 0.6 /\
  snd (adaptRepeatedly accuracies f c) = 3%Z.
Proof.
  intros Hf Hc Hall Hlen.
  destruct accuracies as [|a1 [|a2 [|a3 [|a4 [|a5 rest]]]]];
    cbn [length] in Hlen; try lia.
  repeat match goal with
         | H : Forall _ (_ :: _) |- _ =>
             let Ha := fresh "Ha" in
             let Hr := fresh "Hr" in
             inversion H as [|? ? Ha Hr]; subst; clear H
         end.
  cbn [adaptRepeatedly].
  destruct (low_first_step a1 f c) as (C1 & U1 & L1); try assumption.
  rewrite C1.
  destruct (low_step a2 _ 1.35 1.04 Ha0 U1 L1) as (C2 & U2 & L2); try qlra.
  rewrite C2.
  destruct (low_step a3 _ 1.04 0.8 Ha1 U2 L2) as (C3 & U3 & L3); try qlra.
  rewrite C3.
  destruct (low_step a4 _ 0.8 0.62 Ha2 U3 L3) as (C4 & U4 & L4); try qlra.
  rewrite C4.
  destruct (low_step a5 _ 0.62 0.6 Ha3 U4 L4) as (C5 & U5 & L5); try qlra.
  rewrite C5.
  apply floor_stays; [assumption | qlra].
Qed.

Lemma adaptRepeatedly_reaches_floor_witness :
  fst (adaptRepeatedly [0.1; 0.2; 0; 0.3; 0.39] 1.5 4) == 0.6 /\
  snd (adaptRepeatedly [0.1; 0.2; 0; 0.3; 0.39] 1.5 4) = 3%Z.
Proof.
  apply (adaptRepeatedly_reaches_floor [0.1; 0.2; 0; 0.3; 0.39] 1.5 4).
  - split; vm_compute; discriminate.
  - lia.
  - repeat constructor.
  - cbn. lia.
Defined.

End AdaptDirection.

(** ** Session routes *)

Section Sessions.

Import DecisionLogic SessionRoutes Invariants.

Lemma correctRatio_range (trials : list Trial) (whenEmpty : Q) :
  0 <= whenEmpty <= 1 -> 0 <= correctRatio trials whenEmpty <= 1.
Proof.
  intro He. unfold correctRatio.
  destruct (Nat.ltb_spec 0 (length trials)) as [Hpos|_]; [|exact He].
  assert (Hc : (length (filter accuracy trials) <= length trials)%nat)
    by apply filter_length_le.
  assert (Hd : 0 < inject_Z (Z.of_nat (length trials))).
  { change 0 with (inject_Z 0). rewrite <- Zlt_Qlt. lia. }
  split.
  - apply Qle_shift_div_l; [exact Hd|]. rewrite Qmult_0_l.
    change 0 with (inject_Z 0). rewrite <- Zle_Qle. lia.
  - apply Qle_shift_div_r; [exact Hd|]. rewrite Qmult_1_l.
    rewrite <- Zle_Qle. lia.
Qed.

Lemma upsertTrial_numbers (trials : list Trial) (n : Z) (ty prediction : string)
  (confidence : Q) (responseTime : Z) :
  map trialNumber
    (upsertTrial trials n ty prediction confidence responseTime) =
  if in_dec Z.eq_dec n (map trialNumber trials)
  then map trialNumber trials
  else map trialNumber trials ++ [n].
Proof.
  induction trials as [|t rest IH]; [reflexivity|].
  cbn [upsertTrial map].
  destruct (Z.eqb_spec (trialNumber t) n) as [E|E].
  - cbn [map trialNumber].
    destruct (in_dec Z.eq_dec n (trialNumber t :: map trialNumber rest))
      as [_|Hn]; [reflexivity|].
    exfalso. apply Hn. left. exact E.
  - cbn [map]. rewrite IH.
    destruct (in_dec Z.eq_dec n (map trialNumber rest)) as [Hin|Hnin];
      destruct (in_dec Z.eq_dec n (trialNumber t :: map trialNumber rest))
        as [Hin'|Hnin']; try reflexivity.
    + exfalso. apply Hnin'. right. exact Hin.
    + exfalso. destruct Hin' as [E'|Hin']; [congruence | contradiction].
Qed.

Lemma recordTrial_ok (s : Session) (n : Z) (ty prediction : string)
  (confidence : Q) (responseTime : Z) :
  n <> 0%Z -> sessionOk s ->
  sessionOk (recordTrial s n ty prediction confidence responseTime).
Proof.
  intros Hn (Hf & Hc & Hr & _ & _ & Hnd & Hz).
  unfold sessionOk, recordTrial.
  cbn [calibration sessionAccuracy totalTrials trials].
  repeat split; try (apply Hf || apply Hc || apply Hr).
  - apply correctRatio_range. split; discriminate.
  - apply correctRatio_range. split; discriminate.
  - rewrite upsertTrial_numbers.
    destruct (in_dec Z.eq_dec n (map trialNumber (trials s))) as [_|Hnin];
      [exact Hnd|].
    apply NoDup_app; [exact Hnd | repeat constructor; intros [] |].
    intros x Hx [<-|[]]. contradiction.
  - rewrite upsertTrial_numbers.
    destruct (in_dec Z.eq_dec n (map trialNumber (trials s))) as [_|_];
      [exact Hz|].
    rewrite in_app_iff. intros [H|[H|[]]]; [contradiction | congruence].
Qed.

Lemma truthyNumber_Some (x : option Z) (n : Z) :
  truthyNumber x = Some n -> x = Some n /\ n <> 0%Z.
Proof.
  destruct x as [v|]; cbn; [|discriminate].
  destruct (Z.eqb_spec v 0); [discriminate|].
  intro H. injection H as <-. split; [reflexivity | assumption].
Qed.

Lemma truthyString_Some (x : option string) (v : string) :
  truthyString x = Some v -> x = Some v /\ v <> "".
Proof.
  destruct x as [u|]; cbn; [|discriminate].
  destruct (String.eqb_spec u ""); [discriminate|].
  intro H. injection H as <-. split; [reflexivity | assumption].
Qed.

Lemma postTrial_ok (body : TrialBody) (s : Session) :
  sessionOk s -> sessionOk (snd (postTrial body s)).
Proof.
  intro Hs. unfold postTrial.
  destruct (truthyNumber (bodyTrialNumber body)) as [n|] eqn:En;
    [|exact Hs].
  destruct (truthyString (bodyTargetType body)) as [ty|]; [|exact Hs].
  destruct (truthyString (bodyPrediction body)) as [pr|]; [|exact Hs].
  destruct (bodyConfidence body) as [cf|]; [|exact Hs].
  apply truthyNumber_Some in En. destruct En as [_ Hn].
  cbv zeta. cbn [snd].
  set (rt := match bodyResponseTime body with Some r => r | None => 0%Z end).
  pose proof (recordTrial_ok s n ty pr cf rt Hn Hs) as Hr.
  set (s1 := recordTrial s n ty pr cf rt) in *.
  destruct Hr as (Hf & Hc & _ & Ha & Ht & Hnd & Hz).
  unfold sessionOk.
  cbn [calibration sessionAccuracy totalTrials trials flashSpeed objectCount
       SessionRoutes.recentAccuracy].
  destruct (adaptDifficulty_inBounds
              (correctRatio (lastTen (trials s1)) 0.5)
              (flashSpeed (calibration s1)) (objectCount (calibration s1)))
    as [Hf' Hc']; [split; assumption|].
  split; [exact Hf'|]. split; [exact Hc'|].
  split; [apply correctRatio_range; split; discriminate|].
  repeat split; try assumption; apply Ha.
Qed.

(** X6: every session reached from [createSession] by requests to the
    trial route has a flash speed in [[0.6, 1.5]], an object count of 3 or
    4, a recent accuracy and a session accuracy in [[0, 1]], a trial total
    equal to the number of stored trials, and trials with pairwise different
    numbers, none of them 0. *)
Theorem postTrials_sessionOk (bodies : list TrialBody) :
  sessionOk (postTrials bodies createSession).
Proof.
  assert (H0 : sessionOk createSession).
  { unfold sessionOk, createSession.
    cbn [calibration flashSpeed objectCount SessionRoutes.recentAccuracy
         sessionAccuracy totalTrials trials map length].
    repeat split; try discriminate; try lia; try constructor.
    intros []. }
  revert H0. generalize createSession.
  induction bodies as [|body rest IH]; intros s Hs; cbn [postTrials].
  - exact Hs.
  - apply IH, postTrial_ok, Hs.
Qed.

Lemma upsertTrial_length (trials : list Trial) (n : Z) (ty prediction : string)
  (confidence : Q) (responseTime : Z) :
  length (upsertTrial trials n ty prediction confidence responseTime) =
  if in_dec Z.eq_dec n (map trialNumber trials)
  then length trials else S (length trials).
Proof.
  rewrite <- (length_map trialNumber), upsertTrial_numbers.
  destruct (in_dec Z.eq_dec n (map trialNumber trials)).
  - apply length_map.
  - rewrite length_app, length_map. cbn. lia.
Qed.

(** X8: an accepted request for a trial number that is already stored
    replaces that trial's outcome and adds no trial; one for a new number
    adds one trial.  Either way the stored trial with that number then
    carries the outcome of the request, and the session accuracy is the
    share of stored trials whose outcome is correct. *)
Theorem postTrial_upsert (s : Session) (n : Z) (ty prediction : string)
  (confidence : Q) (responseTime : option Z) :
  n <> 0%Z -> ty <> "" -> prediction <> "" ->
  let body := mkBody (Some n) (Some ty) (Some prediction) (Some confidence)
                responseTime in
  let s' := snd (postTrial body s) in
  (In n (map trialNumber (trials s)) ->
   map trialNumber (trials s') = map trialNumber (trials s) /\
   totalTrials s' = Z.of_nat (length (trials s))) /\
  (~ In n (map trialNumber (trials s)) ->
   map trialNumber (trials s') = map trialNumber (trials s) ++ [n] /\
   totalTrials s' = (Z.of_nat (length (trials s)) + 1)%Z) /\
  (exists t, In t (trials s') /\ trialNumber t = n /\
             accuracy t = isCorrect ty prediction) /\
  sessionAccuracy s' = correctRatio (trials s') 0.
Proof.
  intros Hn Hty Hpr body s'. subst s' body. unfold postTrial.
  cbn [bodyTrialNumber bodyTargetType bodyPrediction bodyConfidence
       bodyResponseTime truthyNumber truthyString].
  apply Z.eqb_neq in Hn. rewrite Hn.
  apply String.eqb_neq in Hty, Hpr. rewrite Hty, Hpr.
  cbv zeta. cbn [snd trials totalTrials sessionAccuracy recordTrial].
  set (rt := match responseTime with Some r => r | None => 0%Z end).
  rewrite upsertTrial_numbers, upsertTrial_length.
  destruct (in_dec Z.eq_dec n (map trialNumber (trials s))) as [Hin|Hnin].
  - split; [intros _; split; reflexivity|].
    split; [intro H; contradiction|].
    split; [|reflexivity].
    revert Hin. generalize (trials s). intro l.
    induction l as [|t rest IH]; intro Hin; [destruct Hin|].
    cbn [upsertTrial]. destruct (Z.eqb_spec (trialNumber t) n) as [E|E].
    + eexists. split; [left; reflexivity|]. cbn. split; [exact E|reflexivity].
    + destruct Hin as [H|H]; [contradiction|].
      destruct (IH H) as (t' & Ht' & Hp). exists t'.
      split; [right; exact Ht' | exact Hp].
  - split; [intro H; contradiction|].
    split; [intros _; split; [reflexivity | lia]|].
    split; [|reflexivity].
    revert Hnin. generalize (trials s). intro l.
    induction l as [|t rest IH]; intro Hnin.
    + eexists. split; [left; reflexivity|]. cbn. split; reflexivity.
    + cbn [upsertTrial]. destruct (Z.eqb_spec (trialNumber t) n) as [E|E].
      * exfalso. apply Hnin. left. exact E.
      * destruct IH as (t' & Ht' & Hp).
        { intro H. apply Hnin. right. exact H. }
        exists t'. split; [right; exact Ht' | exact Hp].
Qed.

Lemma postTrial_upsert_witness :
  let s := snd (postTrial (mkBody (Some 1%Z) (Some "target") (Some "NO")
                             (Some 0.4) None) createSession) in
  let s' := snd (postTrial (mkBody (Some 1%Z) (Some "target") (Some "YES")
                              (Some 0.9) (Some 450%Z)) s) in
  map trialNumber (trials s') = [1%Z] /\ totalTrials s' = 1%Z.
Proof.
  refine (proj1 (postTrial_upsert
                   (snd (postTrial (mkBody (Some 1%Z) (Some "target")
                                      (Some "NO") (Some 0.4) None)
                           createSession))
                   1 "target" "YES" 0.9 (Some 450%Z) _ _ _) _).
  - discriminate.
  - discriminate.
  - discriminate.
  - left. reflexivity.
Defined.

(** X9: the smoothing route answers 400 exactly for a body that is not an
    array or is empty; otherwise its answer is [smoothPredictions] with
    window size 5, so the window is never empty. *)
Theorem postSmoothPredictions_spec (body : option (list Prediction)) :
  (postSmoothPredictions body = None <-> body = None \/ body = Some []) /\
  (forall predictions,
      body = Some predictions -> predictions <> [] ->
      postSmoothPredictions body = Some (smoothPredictions predictions 5) /\
      window_of predictions 5 <> []).
Proof.
  split.
  - destruct body as [[|p rest]|]; cbn; split; intro H;
      try reflexivity; try discriminate; auto;
      destruct H as [H|H]; discriminate H.
  - intros predictions -> Hne.
    split; [|apply window_of_nonempty; [exact Hne | lia]].
    destruct predictions as [|p rest]; [congruence|].
    cbn [postSmoothPredictions]. f_equal.
    rewrite !smoothPredictions_nonempty by discriminate.
    assert (E : window_of (p :: rest)
                  (Z.min 5 (Z.of_nat (length (p :: rest)))) =
                window_of (p :: rest) 5).
    { unfold window_of. f_equal. lia. }
    cbv zeta. rewrite E. reflexivity.
Qed.

Lemma postSmoothPredictions_spec_witness :
  postSmoothPredictions (Some Inputs.history3) =
  Some (smoothPredictions Inputs.history3 5).
Proof.
  apply (proj2 (postSmoothPredictions_spec (Some Inputs.history3))
           Inputs.history3 eq_refl).
  discriminate.
Defined.

End Sessions.

(** ** Feature extractor: sorted timestamps, ranges, degenerate windows *)

Section FeatureRanges.

Import FeatureExtraction FeatureExtractionBatch Reference Invariants.

Lemma Qabs_cases (x : Q) :
  (0 <= x /\ Qabs x == x) \/ (x <= 0 /\ Qabs x == - x).
Proof.
  destruct (Qlt_le_dec x 0) as [H|H].
  - right. split; [apply Qlt_le_weak, H|].
    apply Qabs_neg. apply Qlt_le_weak, H.
  - left. split; [exact H | apply Qabs_pos, H].
Qed.

Lemma nearest_indices_ordered (ts : list Q) :
  ts <> [] -> nondecreasing ts ->
  (findClosestIndex ts 300 <= findClosestIndex ts 600)%nat.
Proof.
  intros Hne Hsorted.
  destruct (findClosestIndex_nearestFirst ts 300 Hne) as (Hs & _ & Hfirst).
  destruct (findClosestIndex_nearestFirst ts 600 Hne) as (He & Hmin & _).
  set (s := findClosestIndex ts 300) in *.
  set (e := findClosestIndex ts 600) in *.
  destruct (Nat.le_gt_cases s e) as [H|H]; [exact H|exfalso].
  specialize (Hfirst e H). specialize (Hmin s Hs).
  assert (Hab : nth e ts 0 <= nth s ts 0) by (apply Hsorted; lia).
  destruct (Qabs_cases (nth s ts 0 - 300)) as [[A1 E1]|[A1 E1]];
    destruct (Qabs_cases (nth e ts 0 - 300)) as [[A2 E2]|[A2 E2]];
    destruct (Qabs_cases (nth s ts 0 - 600)) as [[A3 E3]|[A3 E3]];
    destruct (Qabs_cases (nth e ts 0 - 600)) as [[A4 E4]|[A4 E4]];
    rewrite E1, E2 in Hfirst; rewrite E3, E4 in Hmin; qlra.
Qed.

Lemma extractFeatures_on_window (filteredSignal timestamps : list Q)
  (s0 : Q) (rest : list Q) :
  slice filteredSignal (findClosestIndex timestamps 300)
    (findClosestIndex timestamps 600 + 1) = s0 :: rest ->
  extractFeatures filteredSignal timestamps =
  let peak := maxOf (Qabs s0) (map Qabs rest) in
  mkFeatureVector
    (Qsum (s0 :: rest) / inject_Z (Z.of_nat (length (s0 :: rest))))
    peak
    match findIndex (fun s => Qeq_bool (Qabs s) peak) (s0 :: rest) with
    | Some k =>
        orZero (nth_error
                  (slice timestamps (findClosestIndex timestamps 300)
                     (findClosestIndex timestamps 600 + 1)) k)
    | None => 0
    end.
Proof.
  intro H. unfold extractFeatures, P300_START_MS, P300_END_MS.
  cbv zeta. rewrite H. reflexivity.
Qed.

Lemma extractFeatures_on_empty_window (filteredSignal timestamps : list Q) :
  slice filteredSignal (findClosestIndex timestamps 300)
    (findClosestIndex timestamps 600 + 1) = [] ->
  extractFeatures filteredSignal timestamps = mkFeatureVector 0 0 0.
Proof.
  intro H. unfold extractFeatures, P300_START_MS, P300_END_MS.
  cbv zeta. rewrite H. reflexivity.
Qed.

Lemma peak_index (s0 : Q) (rest : list Q) :
  exists k,
    findIndex (fun s => Qeq_bool (Qabs s) (maxOf (Qabs s0) (map Qabs rest)))
      (s0 :: rest) = Some k /\ (k < length (s0 :: rest))%nat.
Proof.
  destruct (findIndex _ (s0 :: rest)) as [k|] eqn:Ef.
  - exists k. split; [reflexivity|].
    apply (findIndex_Some 0 _ _ k Ef).
  - exfalso.
    destruct (maxOf_attained (map Qabs rest) (Qabs s0)) as (y & Hy & E).
    change (Qabs s0 :: map Qabs rest) with (map Qabs (s0 :: rest)) in Hy.
    apply in_map_iff in Hy. destruct Hy as (x & <- & Hin).
    pose proof (findIndex_None _ _ Ef x Hin) as Hf. cbv beta in Hf.
    apply Qeq_bool_neq in Hf. contradiction.
Qed.

Lemma extractFeatures_latency_index (filteredSignal timestamps : list Q) :
  length filteredSignal = length timestamps ->
  slice filteredSignal (findClosestIndex timestamps 300)
    (findClosestIndex timestamps 600 + 1) <> [] ->
  exists k,
    (k < length (slice filteredSignal (findClosestIndex timestamps 300)
                   (findClosestIndex timestamps 600 + 1)))%nat /\
    latency (extractFeatures filteredSignal timestamps) ==
    nth (findClosestIndex timestamps 300 + k) timestamps 0.
Proof.
  intros Hlen Hw.
  destruct (slice filteredSignal _ _) as [|s0 rest] eqn:Ew; [congruence|].
  rewrite (extractFeatures_on_window _ _ s0 rest Ew). cbv zeta.
  cbn [latency].
  destruct (peak_index s0 rest) as (k & Ek & Hk). rewrite Ek.
  exists k. split; [exact Hk|].
  assert (Hwt : length (slice timestamps (findClosestIndex timestamps 300)
                          (findClosestIndex timestamps 600 + 1)) =
                length (s0 :: rest)).
  { rewrite <- Ew, !slice_length, Hlen. reflexivity. }
  rewrite orZero_nth by (rewrite Hwt; exact Hk).
  rewrite slice_nth by (rewrite Hwt; exact Hk). reflexivity.
Qed.

(** X10: for a signal and timestamps of the same non-zero length, with
    timestamps that never go back, the window is not empty (so the zero
    vector is never a fallback), it starts no later than it ends, and the
    latency lies between the timestamps of its first and last sample. *)
Theorem extractFeatures_sorted (filteredSignal timestamps : list Q) :
  length filteredSignal = length timestamps ->
  timestamps <> [] ->
  nondecreasing timestamps ->
  let startIdx := findClosestIndex timestamps 300 in
  let endIdx := findClosestIndex timestamps 600 in
  (startIdx <= endIdx)%nat /\
  length (slice filteredSignal startIdx (endIdx + 1)) =
    (endIdx - startIdx + 1)%nat /\
  nth startIdx timestamps 0 <=
    latency (extractFeatures filteredSignal timestamps) /\
  latency (extractFeatures filteredSignal timestamps) <=
    nth endIdx timestamps 0.
Proof.
  intros Hlen Hne Hsorted startIdx endIdx.
  pose proof (nearest_indices_ordered timestamps Hne Hsorted) as Hord.
  fold startIdx endIdx in Hord.
  destruct (findClosestIndex_nearestFirst timestamps 600 Hne) as (He & _).
  fold endIdx in He.
  assert (Hwl : length (slice filteredSignal startIdx (endIdx + 1)) =
                (endIdx - startIdx + 1)%nat)
    by (rewrite slice_length; lia).
  split; [exact Hord|]. split; [exact Hwl|].
  assert (Hw : slice filteredSignal startIdx (endIdx + 1) <> []).
  { intro E. rewrite E in Hwl. cbn in Hwl. lia. }
  destruct (extractFeatures_latency_index filteredSignal timestamps Hlen Hw)
    as (k & Hk & Hl).
  fold startIdx endIdx in Hk, Hl. rewrite Hl. rewrite Hwl in Hk.
  split; apply Hsorted; lia.
Qed.

Lemma extractFeatures_sorted_witness :
  let ts := [0; 200; 400; 600; 800] in
  let fv := extractFeatures [1; -2; 3; -4; 5] ts in
  nth (findClosestIndex ts 300) ts 0 <= latency fv /\
  latency fv <= nth (findClosestIndex ts 600) ts 0.
Proof.
  refine (proj2 (proj2 (extractFeatures_sorted [1; -2; 3; -4; 5]
                          [0; 200; 400; 600; 800] eq_refl _ _))).
  - discriminate.
  - intros i j Hij Hj. cbn [length] in Hj.
    do 5 (destruct j as [|j];
          [do 5 (destruct i as [|i];
                 [first [lia | vm_compute; discriminate]|]); lia|]).
    lia.
Defined.

Lemma sum_within (p : Q) (l : list Q) :
  (forall s, In s l -> Qabs s <= p) ->
  - (inject_Z (Z.of_nat (length l)) * p) <= fold_right Qplus 0 l /\
  fold_right Qplus 0 l <= inject_Z (Z.of_nat (length l)) * p.
Proof.
  induction l as [|x l IH]; intro H.
  - cbn [length fold_right Z.of_nat]. change (inject_Z 0) with 0.
    split; qlra.
  - destruct IH as [IH1 IH2]; [intros s Hs; apply H; right; exact Hs|].
    pose proof (H x (or_introl eq_refl)) as Hx.
    apply Qabs_Qle_condition in Hx. destruct Hx as [Hx1 Hx2].
    cbn [fold_right length]. rewrite Nat2Z.inj_succ. unfold Z.succ.
    rewrite inject_Z_plus.
    change (inject_Z 1) with 1. split; qlra.
Qed.

(** X11: whatever the input, the peak is not negative and the mean lies
    between minus the peak and the peak. *)
Theorem extractFeatures_mean_within_peak (filteredSignal timestamps : list Q) :
  let fv := extractFeatures filteredSignal timestamps in
  0 <= peak fv /\ - peak fv <= mean fv /\ mean fv <= peak fv.
Proof.
  intro fv. subst fv.
  destruct (slice filteredSignal (findClosestIndex timestamps 300)
              (findClosestIndex timestamps 600 + 1)) as [|s0 rest] eqn:Ew.
  - rewrite (extractFeatures_on_empty_window _ _ Ew). cbn.
    repeat split; discriminate.
  - rewrite (extractFeatures_on_window _ _ s0 rest Ew). cbv zeta.
    cbn [peak mean].
    set (pk := maxOf (Qabs s0) (map Qabs rest)).
    assert (Hup : forall s, In s (s0 :: rest) -> Qabs s <= pk).
    { intros s [<-|Hin].
      - apply (proj1 (maxOf_upper (map Qabs rest) (Qabs s0))).
      - apply (proj2 (maxOf_upper (map Qabs rest) (Qabs s0))).
        apply in_map, Hin. }
    assert (Hpk : 0 <= pk).
    { apply Qle_trans with (Qabs s0); [apply Qabs_nonneg|].
      apply Hup. left. reflexivity. }
    destruct (sum_within pk (s0 :: rest) Hup) as [H1 H2].
    set (n := inject_Z (Z.of_nat (length (s0 :: rest)))) in *.
    assert (Hn : 0 < n).
    { unfold n. change 0 with (inject_Z 0). rewrite <- Zlt_Qlt.
      cbn [length]. lia. }
    rewrite Qsum_fold_right.
    split; [exact Hpk|]. split.
    + apply Qle_shift_div_l; [exact Hn|]. qlra.
    + apply Qle_shift_div_r; [exact Hn|]. qlra.
Qed.

(** X12: the zero vector is returned whenever the window is empty, that
    is, when the index nearest to 600 ms comes before the index nearest to
    300 ms, or the signal has no sample at the index nearest to 300 ms; an
    empty signal is such a case whatever the timestamps. *)
Theorem extractFeatures_empty_window (filteredSignal timestamps : list Q) :
  let startIdx := findClosestIndex timestamps 300 in
  let endIdx := findClosestIndex timestamps 600 in
  (slice filteredSignal startIdx (endIdx + 1) = [] <->
   (endIdx < startIdx)%nat \/ (length filteredSignal <= startIdx)%nat) /\
  (slice filteredSignal startIdx (endIdx + 1) = [] ->
   extractFeatures filteredSignal timestamps = mkFeatureVector 0 0 0) /\
  extractFeatures [] timestamps = mkFeatureVector 0 0 0.
Proof.
  intros startIdx endIdx.
  assert (Hiff : forall fs : list Q,
             slice fs startIdx (endIdx + 1) = [] <->
             (endIdx < startIdx)%nat \/ (length fs <= startIdx)%nat).
  { intro fs. rewrite <- length_zero_iff_nil, slice_length. lia. }
  split; [apply Hiff|]. split.
  - apply extractFeatures_on_empty_window.
  - apply extractFeatures_on_empty_window. apply Hiff. right. cbn. lia.
Qed.

Lemma mapSignals_spec (signals : list (list Q)) :
  forall (idx : nat) (timestampsList : list (list Q)),
    ((idx + length signals <= length timestampsList)%nat ->
     exists features,
       mapSignals signals idx timestampsList = Some features /\
       length features = length signals /\
       forall i, (i < length signals)%nat ->
                 nth i features (mkFeatureVector 0 0 0) =
                 extractFeatures (nth i signals [])
                   (nth (idx + i) timestampsList [])) /\
    (signals <> [] ->
     (length timestampsList < idx + length signals)%nat ->
     mapSignals signals idx timestampsList = None).
Proof.
  induction signals as [|signal rest IH]; intros idx tsl.
  - split.
    + intros _. exists []. repeat split. intros i Hi. cbn in Hi. lia.
    + congruence.
  - cbn [mapSignals length]. destruct (IH (S idx) tsl) as [IH1 IH2]. split.
    + intro Hlen.
      assert (Hidx : (idx < length tsl)%nat) by lia.
      rewrite (nth_error_nth' tsl [] Hidx).
      destruct IH1 as (features & E & Hl & Hn); [lia|].
      rewrite E. eexists. split; [reflexivity|].
      split; [cbn; lia|].
      intros [|i] Hi.
      * cbn [nth]. rewrite Nat.add_0_r. reflexivity.
      * cbn [nth]. rewrite Hn by lia. rewrite Nat.add_succ_r. reflexivity.
    + intros _ Hlen. destruct (nth_error tsl idx) eqn:E; [|reflexivity].
      rewrite IH2; [reflexivity | | ].
      * intro Er. subst rest. cbn [length] in Hlen.
        assert (Hlt : (idx < length tsl)%nat)
          by (apply nth_error_Some; congruence).
        lia.
      * lia.
Qed.

(** X13: the batch variant returns one feature vector per signal, each
    computed from the signal and the timestamps at the same position, when
    there are at least as many timestamp arrays as signals; with fewer
    timestamp arrays than signals the call throws. *)
Theorem extractFeaturesFromMultiple_spec
  (signals timestampsList : list (list Q)) :
  ((length signals <= length timestampsList)%nat ->
   exists features,
     extractFeaturesFromMultiple signals timestampsList = Some features /\
     length features = length signals /\
     forall i, (i < length signals)%nat ->
               nth i features (mkFeatureVector 0 0 0) =
               extractFeatures (nth i signals []) (nth i timestampsList [])) /\
  ((length timestampsList < length signals)%nat ->
   extractFeaturesFromMultiple signals timestampsList = None).
Proof.
  unfold extractFeaturesFromMultiple.
  destruct (mapSignals_spec signals 0 timestampsList) as [H1 H2].
  split; [exact H1|].
  intro Hlen. apply H2; [|exact Hlen].
  intro E. subst signals. cbn in Hlen. lia.
Qed.

Lemma extractFeaturesFromMultiple_spec_witness :
  extractFeaturesFromMultiple [[1; 2]; [3; 4]] [[0; 500]] = None.
Proof.
  apply (proj2 (extractFeaturesFromMultiple_spec [[1; 2]; [3; 4]] [[0; 500]])).
  cbn. lia.
Defined.

End FeatureRanges.

(** ** Preprocessor: linearity *)

Section PreprocessLinear.

Import Preprocessing Invariants.

Lemma for_range_rel3 {S : Type} (P : S -> S -> S -> Prop)
  (body1 body2 body3 : nat -> S -> S) (lo hi : nat) (s1 s2 s3 : S) :
  P s1 s2 s3 ->
  (forall i u v w, P u v w -> P (body1 i u) (body2 i v) (body3 i w)) ->
  P (for_range lo hi body1 s1) (for_range lo hi body2 s2)
    (for_range lo hi body3 s3).
Proof.
  intros H0 Hstep. unfold for_range.
  generalize (seq lo (hi - lo)). intro l. revert s1 s2 s3 H0.
  induction l as [|i l IH]; intros s1 s2 s3 H0; cbn [fold_left].
  - exact H0.
  - apply IH, Hstep, H0.
Qed.

Lemma nth_assign {A : Type} (d : A) (l : list A) :
  forall (i k : nat) (v : A),
    nth k (assign l i v) d =
    if ((k =? i)%nat && (i <? length l)%nat)%bool then v else nth k l d.
Proof.
  induction l as [|x l IH]; intros i k v.
  - cbn. rewrite andb_false_r. reflexivity.
  - destruct i as [|i]; destruct k as [|k]; cbn [assign nth length];
      try reflexivity.
    rewrite IH. reflexivity.
Qed.

Variables a b : Q.

Lemma combination_assign (x y z : list Q) (i : nat) (vx vy vz : Q) :
  combination a b x y z ->
  vz == a * vx + b * vy ->
  combination a b (assign x i vx) (assign y i vy) (assign z i vz).
Proof.
  intros (Hx & Hy & Hn) Hv. unfold combination.
  rewrite !assign_length. split; [exact Hx|]. split; [exact Hy|].
  intro k. rewrite !nth_assign, Hx, Hy.
  destruct ((k =? i)%nat && (i <? length z)%nat)%bool; [exact Hv | apply Hn].
Qed.

Lemma combination_map_seq (f g h : nat -> Q) (n : nat) :
  (forall i, h i == a * f i + b * g i) ->
  combination a b (map f (seq 0 n)) (map g (seq 0 n)) (map h (seq 0 n)).
Proof.
  intro H. unfold combination. rewrite !length_map.
  split; [reflexivity|]. split; [reflexivity|].
  intro i. destruct (Nat.lt_ge_cases i n) as [Hi|Hi].
  - rewrite !nth_map_seq by exact Hi. apply H.
  - rewrite !nth_overflow by (rewrite length_map, length_seq; exact Hi).
    ring.
Qed.

Lemma movingAveragePass_combination (x y z : list Q) :
  combination a b x y z ->
  combination a b (movingAveragePass x) (movingAveragePass y)
    (movingAveragePass z).
Proof.
  intros (Hx & Hy & Hn). unfold movingAveragePass. rewrite Hx, Hy.
  apply combination_map_seq. intro i.
  pose proof
    (for_range_rel3
       (fun u v w : Q * Z =>
          fst w == a * fst u + b * fst v /\ snd u = snd w /\ snd v = snd w)
       (fun j '(sum, count) => (sum + nth j x 0, (count + 1)%Z))
       (fun j '(sum, count) => (sum + nth j y 0, (count + 1)%Z))
       (fun j '(sum, count) => (sum + nth j z 0, (count + 1)%Z))
       (i - 2) (Nat.min (length z) (i + 3)) (0, 0%Z) (0, 0%Z) (0, 0%Z))
    as H.
  cbv beta in H.
  destruct H as (Hs & Hc1 & Hc2).
  - cbn. repeat split. ring.
  - intros j [su cu] [sv cv] [sw cw] (E & E1 & E2). cbn [fst snd] in *.
    subst cu cv. repeat split. rewrite E, (Hn j). ring.
  - destruct (for_range _ _ _ _) as [sx cx].
    destruct (for_range _ _ _ _) as [sy cy].
    destruct (for_range _ _ _ _) as [sz cz].
    cbn [fst snd] in *. subst cx cy. rewrite Hs.
    unfold Qdiv. ring.
Qed.

Lemma passes_combination (order : nat) :
  forall x y z : list Q,
    combination a b x y z ->
    combination a b (passes order x) (passes order y) (passes order z).
Proof.
  induction order as [|order IH]; intros x y z H; cbn [passes].
  - exact H.
  - apply IH, movingAveragePass_combination, H.
Qed.

Lemma applyBandpassFilter_combination (order : nat) (x y z : list Q) :
  combination a b x y z ->
  combination a b (applyBandpassFilter x order) (applyBandpassFilter y order)
    (applyBandpassFilter z order).
Proof.
  intro H. apply (passes_combination order) in H.
  unfold applyBandpassFilter.
  destruct H as (Hx & Hy & Hn). rewrite Hx, Hy.
  apply (for_range_rel3 (combination a b)).
  - repeat split; assumption.
  - intros i u v w Hc. apply combination_assign; [exact Hc|].
    destruct Hc as (_ & _ & Hc). rewrite (Hc i), (Hc (i - 1)%nat). ring.
Qed.

Lemma applyNotchFilter_combination (samplingRate : Q) (x y z : list Q) :
  combination a b x y z ->
  combination a b (applyNotchFilter x samplingRate)
    (applyNotchFilter y samplingRate) (applyNotchFilter z samplingRate).
Proof.
  intro H. unfold applyNotchFilter. cbv zeta.
  pose proof H as (Hx & Hy & _). rewrite Hx, Hy.
  apply (for_range_rel3 (combination a b)).
  - exact H.
  - intros i u v w Hc. apply combination_assign; [exact Hc|].
    destruct Hc as (_ & _ & Hc).
    rewrite (Hc i), (Hc (i - _)%nat). ring.
Qed.

Lemma combination_sum (z : list Q) :
  forall x y : list Q,
    combination a b x y z -> Qsum z == a * Qsum x + b * Qsum y.
Proof.
  induction z as [|z0 z IH]; intros x y (Hx & Hy & Hn).
  - destruct x; [|discriminate Hx]. destruct y; [|discriminate Hy].
    unfold Qsum. cbn. ring.
  - destruct x as [|x0 x]; [discriminate Hx|].
    destruct y as [|y0 y]; [discriminate Hy|].
    rewrite !Qsum_cons, (IH x y).
    + pose proof (Hn O) as H0. cbn [nth] in H0. rewrite H0. ring.
    + cbn [length] in Hx, Hy. repeat split; try lia.
      intro i. apply (Hn (S i)).
Qed.

Lemma preprocessSignal_combination (samplingRate : Q) (x y z : list Q) :
  combination a b x y z ->
  combination a b (filteredSignal (preprocessSignal x samplingRate))
    (filteredSignal (preprocessSignal y samplingRate))
    (filteredSignal (preprocessSignal z samplingRate)).
Proof.
  intro H. apply (applyBandpassFilter_combination 2) in H.
  apply (applyNotchFilter_combination samplingRate) in H.
  unfold preprocessSignal. cbv zeta. cbn [filteredSignal].
  set (fx := applyNotchFilter (applyBandpassFilter x 2) samplingRate) in *.
  set (fy := applyNotchFilter (applyBandpassFilter y 2) samplingRate) in *.
  set (fz := applyNotchFilter (applyBandpassFilter z 2) samplingRate) in *.
  pose proof (combination_sum fz fx fy H) as Hsum.
  destruct H as (Hx & Hy & Hn).
  unfold combination. rewrite !length_map.
  split; [exact Hx|]. split; [exact Hy|].
  intro i. rewrite Hx, Hy.
  set (n := inject_Z (Z.of_nat (length fz))).
  destruct (Nat.lt_ge_cases i (length fz)) as [Hi|Hi].
  - rewrite (nth_indep (map _ fx) 0 (0 - Qsum fx / n))
      by (rewrite length_map; lia).
    rewrite (nth_indep (map _ fy) 0 (0 - Qsum fy / n))
      by (rewrite length_map; lia).
    rewrite (nth_indep (map _ fz) 0 (0 - Qsum fz / n))
      by (rewrite length_map; lia).
    rewrite (map_nth (fun sample => sample - Qsum fx / n) fx).
    rewrite (map_nth (fun sample => sample - Qsum fy / n) fy).
    rewrite (map_nth (fun sample => sample - Qsum fz / n) fz).
    rewrite (Hn i), Hsum. unfold Qdiv. ring.
  - rewrite !nth_overflow by (rewrite length_map; lia). ring.
Qed.

End PreprocessLinear.

Section PreprocessProperties.

Import Preprocessing Invariants.

Lemma combination_of_map (a b : Q) (x y : list Q) :
  length x = length y ->
  combination a b x y
    (map (fun uv => a * fst uv + b * snd uv) (combine x y)).
Proof.
  intro Hlen. unfold combination.
  rewrite length_map, length_combine, <- Hlen, Nat.min_id.
  split; [reflexivity|]. split; [reflexivity|].
  intro i. destruct (Nat.lt_ge_cases i (length x)) as [Hi|Hi].
  - rewrite (nth_indep _ 0 ((fun uv => a * fst uv + b * snd uv) (0, 0)))
      by (rewrite length_map, length_combine; lia).
    rewrite (map_nth (fun uv => a * fst uv + b * snd uv)).
    rewrite combine_nth by exact Hlen. reflexivity.
  - rewrite !nth_overflow;
      try (rewrite ?length_map, ?length_combine; lia). ring.
Qed.

(** X14: for a sampling rate that is not negative, the preprocessing
    chain is linear: for two signals of the same length, the filtered signal
    of the combination [a * x + b * y] is, sample by sample, the same
    combination of the two filtered signals.  Hence a signal of zeros is
    filtered to zeros. *)
Theorem preprocessSignal_linear (a b samplingRate : Q) (x y : list Q) :
  0 <= samplingRate ->
  length x = length y ->
  let out s := filteredSignal (preprocessSignal s samplingRate) in
  let z := map (fun uv => a * fst uv + b * snd uv) (combine x y) in
  (forall i, nth i (out z) 0 == a * nth i (out x) 0 + b * nth i (out y) 0) /\
  (forall i, nth i (out (repeat 0 (length x))) 0 == 0).
Proof.
  intros _ Hlen out z. split.
  - apply (preprocessSignal_combination a b samplingRate x y z).
    apply combination_of_map, Hlen.
  - intro i.
    assert (H : combination 0 0 (repeat 0 (length x)) (repeat 0 (length x))
                  (repeat 0 (length x))).
    { repeat split. intro k. rewrite nth_repeat. ring. }
    apply (preprocessSignal_combination 0 0 samplingRate) in H.
    destruct H as (_ & _ & H). specialize (H i). subst out. cbv beta.
    qlra.
Qed.

Lemma preprocessSignal_linear_witness :
  let out s := filteredSignal (preprocessSignal s 250) in
  nth 1 (out (map (fun uv => 2 * fst uv + 3 * snd uv)
                (combine [1; 2; 3] [0; 5; -1]))) 0 ==
  2 * nth 1 (out [1; 2; 3]) 0 + 3 * nth 1 (out [0; 5; -1]) 0.
Proof.
  refine (proj1 (preprocessSignal_linear 2 3 250 [1; 2; 3] [0; 5; -1]
                  _ eq_refl) 1%nat).
  vm_compute. discriminate.
Defined.

Lemma for_range_invariant_bounded {S : Type} (P : S -> Prop)
  (body : nat -> S -> S) (lo hi : nat) (s : S) :
  P s ->
  (forall i s', (lo <= i < hi)%nat -> P s' -> P (body i s')) ->
  P (for_range lo hi body s).
Proof.
  intros H0 Hstep. unfold for_range.
  assert (Hin : forall i, In i (seq lo (hi - lo)) -> (lo <= i < hi)%nat)
    by (intros i Hi; apply in_seq in Hi; lia).
  revert Hin. generalize (seq lo (hi - lo)). intro l. revert s H0.
  induction l as [|i l IH]; intros s H0 Hin; cbn [fold_left].
  - exact H0.
  - apply IH.
    + apply Hstep; [apply Hin; left; reflexivity | exact H0].
    + intros j Hj. apply Hin. right. exact Hj.
Qed.

Lemma In_assign {A : Type} (l : list A) :
  forall (i : nat) (v x : A), In x (assign l i v) -> x = v \/ In x l.
Proof.
  induction l as [|y l IH]; intros i v x H.
  - destruct i; destruct H.
  - destruct i as [|i]; cbn [assign] in H.
    + destruct H as [<-|H]; [left; reflexivity | right; right; exact H].
    + destruct H as [<-|H]; [right; left; reflexivity|].
      destruct (IH i v x H) as [E|E]; [left; exact E | right; right; exact E].
Qed.

Lemma average_within (lo hi : Q) (f : list Q) (indices : list nat) :
  within lo hi f ->
  (forall j, In j indices -> (j < length f)%nat) ->
  forall (sum : Q) (count : Z),
    (0 <= count)%Z ->
    lo * inject_Z count <= sum /\ sum <= hi * inject_Z count ->
    let r := fold_left
               (fun acc j =>
                  (fun '(sum, count) =>
                     (sum + nth j f 0, (count + 1)%Z)) acc)
               indices (sum, count) in
    (lo * inject_Z (snd r) <= fst r /\ fst r <= hi * inject_Z (snd r)) /\
    snd r = (count + Z.of_nat (length indices))%Z.
Proof.
  intros Hw. induction indices as [|j indices IH];
    intros Hidx sum count Hc Hacc r.
  - subst r. cbn. split; [exact Hacc | lia].
  - subst r. cbn [fold_left].
    destruct (Hw (nth j f 0)) as [H1 H2];
      [apply nth_In, Hidx; left; reflexivity|].
    destruct (IH (fun k Hk => Hidx k (or_intror Hk))
                (sum + nth j f 0) (count + 1)%Z) as [Hr Hn]; [lia | |].
    + rewrite inject_Z_plus. change (inject_Z 1) with 1.
      destruct Hacc. split; qlra.
    + split; [exact Hr|]. rewrite Hn. cbn [length]. lia.
Qed.

Lemma movingAveragePass_within (lo hi : Q) (f : list Q) :
  within lo hi f -> within lo hi (movingAveragePass f).
Proof.
  intros Hw v Hv. unfold movingAveragePass in Hv.
  apply in_map_iff in Hv. destruct Hv as (i & <- & Hi).
  apply in_seq in Hi. unfold for_range.
  destruct (average_within lo hi f
              (seq (i - 2) (Nat.min (length f) (i + 3) - (i - 2))) Hw)
    with (sum := 0) (count := 0%Z) as [[H1 H2] Hn].
  - intros j Hj. apply in_seq in Hj. lia.
  - lia.
  - change (inject_Z 0) with 0. split; qlra.
  - cbv zeta in H1, H2, Hn. rewrite length_seq in Hn.
    destruct (fold_left _ _ (0, 0%Z)) as [sum count].
    cbn [fst snd] in *.
    assert (Hpos : 0 < inject_Z count).
    { change 0 with (inject_Z 0). rewrite <- Zlt_Qlt. lia. }
    split.
    + apply Qle_shift_div_l; assumption.
    + apply Qle_shift_div_r; assumption.
Qed.

(** X15: smoothing never leaves the range of its input: if every sample
    lies between [lo] and [hi], so does every sample after any number of
    moving-average passes (edges included, where fewer samples are
    averaged). *)
Theorem passes_within (order : nat) (lo hi : Q) (signal : list Q) :
  within lo hi signal ->
  within lo hi (passes order signal) /\
  length (passes order signal) = length signal.
Proof.
  intro Hw. split; [|apply passes_length].
  revert signal Hw. induction order as [|order IH]; intros signal Hw.
  - exact Hw.
  - cbn [passes]. apply IH, movingAveragePass_within, Hw.
Qed.

Lemma passes_within_witness :
  within 0 10 (passes 2 [0; 10; 0; 10; 5]).
Proof.
  apply (passes_within 2 0 10 [0; 10; 0; 10; 5]).
  intros v [<-|[<-|[<-|[<-|[<-|[]]]]]]; split; vm_compute; discriminate.
Defined.

(** X16: the notch stage leaves the first [floor(samplingRate / 50)]
    samples as they are, keeps the length, and never leaves the range of
    its input: each later sample becomes a 0.8 / 0.2 blend of itself and the
    (already blended) sample one period before. *)
Theorem applyNotchFilter_spec (lo hi samplingRate : Q) (signal : list Q) :
  0 <= samplingRate ->
  let p := Z.to_nat (Qfloor (samplingRate / 50)) in
  let out := applyNotchFilter signal samplingRate in
  length out = length signal /\
  (forall k, (k < p)%nat -> nth k out 0 = nth k signal 0) /\
  (within lo hi signal -> within lo hi out).
Proof.
  intros _ p out. subst out. unfold applyNotchFilter. cbv zeta. fold p.
  split; [|split].
  - apply (for_range_invariant (fun f => length f = length signal));
      [reflexivity|].
    intros i f Hf. rewrite assign_length. exact Hf.
  - apply (for_range_invariant_bounded
             (fun f => forall k, (k < p)%nat -> nth k f 0 = nth k signal 0));
      [reflexivity|].
    intros i f Hi Hf k Hk. rewrite nth_assign.
    destruct (Nat.eqb_spec k i) as [->|_]; [lia|]. cbn [andb].
    apply Hf, Hk.
  - intro Hw.
    apply (for_range_invariant_bounded
             (fun f => length f = length signal /\ within lo hi f)).
    + split; [reflexivity | exact Hw].
    + intros i f Hi [Hl Hf]. split; [rewrite assign_length; exact Hl|].
      intros v Hv. apply In_assign in Hv. destruct Hv as [->|Hv];
        [|apply Hf, Hv].
      destruct (Hf (nth i f 0)) as [A1 A2]; [apply nth_In; lia|].
      destruct (Hf (nth (i - p) f 0)) as [B1 B2]; [apply nth_In; lia|].
      split; qlra.
Qed.

Lemma applyNotchFilter_spec_witness :
  nth 1 (applyNotchFilter [1; 2; 3; 4] 100) 0 = nth 1 [1; 2; 3; 4] 0.
Proof.
  refine (proj1 (proj2 (applyNotchFilter_spec 0 0 100 [1; 2; 3; 4] _))
            1%nat _).
  - vm_compute. discriminate.
  - vm_compute. lia.
Defined.

End PreprocessProperties.

(** ** Classifier: confidence range, thresholds, inversion, training *)

Section ClassifierProperties.

Import LDA.

Local Open Scope R_scope.

Lemma sigmoid_range (x : R) : 0 < sigmoid x < 1.
Proof.
  unfold sigmoid. pose proof (exp_pos (- x)) as He.
  split.
  - apply Rdiv_lt_0_compat; rlra.
  - apply (Rmult_lt_reg_r (1 + exp (- x))); [rlra|].
    unfold Rdiv. rewrite Rmult_assoc, Rinv_l by rlra. rlra.
Qed.


(** X17: whatever the state of the classifier and the features, the
    confidence returned by [predict] lies strictly between 0 and 1. *)
Theorem predict_confidence_range (features : FeatureVector)
  (self : Classifier) :
  0 < confidence (predict features self) < 1.
Proof.
  unfold predict. destruct (isTrained self); cbn [negb confidence].
  - apply sigmoid_range.
  - rlra.
Qed.

(** X18: after [setThreshold t] with [t >= 1] every prediction is [NO];
    an untrained classifier answers [NO] whatever the threshold; and after
    [setThreshold t] with [t <= 0], which stores the threshold 0, a trained
    classifier answers [YES] exactly when the confidence it returns is above
    0. *)
Theorem setThreshold_extremes (t : R) (features : FeatureVector)
  (self : Classifier) :
  let r := predict features (setThreshold t self) in
  (1 <= t -> prediction r = NO) /\
  (isTrained self = false -> prediction r = NO) /\
  (t <= 0 -> isTrained self = true ->
   threshold (setThreshold t self) = 0 /\
   (prediction r = YES <-> confidence r > 0) /\
   (prediction r = NO <-> ~ confidence r > 0)).
Proof.
  intro r. subst r. unfold predict, setThreshold.
  cbn [isTrained weights bias threshold].
  split; [|split].
  - intro Ht. destruct (isTrained self); cbn [negb prediction];
      [|reflexivity].
    destruct (Rlt_dec _ _) as [H|H]; [|reflexivity]. exfalso.
    pose proof (sigmoid_range
                  (dotProduct (weights self)
                     [mean features; peak features; latency features]
                   + bias self)) as Hs.
    unfold Rmax, Rmin in H.
    destruct (Rle_dec 1 t); destruct (Rle_dec 0 _); rlra.
  - intro Htr. rewrite Htr. reflexivity.
  - intros Ht Htr. rewrite Htr. cbn [negb prediction confidence].
    assert (E : Rmax 0 (Rmin 1 t) = 0).
    { unfold Rmax, Rmin.
      destruct (Rle_dec 1 t); destruct (Rle_dec 0 _); rlra. }
    rewrite E. split; [reflexivity|].
    destruct (Rlt_dec 0 _) as [H|H]; split; split; intro H';
      try reflexivity; try discriminate; try assumption; contradiction.
Qed.

Lemma setThreshold_extremes_witness :
  prediction (predict (mkFeatureVector 10 10 600)
                (setThreshold 1 newDefault)) = NO.
Proof.
  apply (proj1 (setThreshold_extremes 1 (mkFeatureVector 10 10 600)
                  newDefault)).
  rlra.
Defined.



(** X20: for a 3 by 3 matrix whose determinant is at least [1e-10] in
    absolute value, [invert3x3] returns the inverse: multiplying a vector by
    the matrix and then by the result gives the vector back.  For a
    determinant below [1e-10] in absolute value it returns the identity. *)
Theorem invert3x3_spec (m00 m01 m02 m10 m11 m12 m20 m21 m22 : R) :
  let m := [[m00; m01; m02]; [m10; m11; m12]; [m20; m21; m22]] in
  let det := m00 * (m11 * m22 - m12 * m21) - m01 * (m10 * m22 - m12 * m20)
             + m02 * (m10 * m21 - m11 * m20) in
  (Rabs det >= 1e-10 ->
   forall v0 v1 v2 : R,
     matrixVectorMultiply (invert3x3 m)
       (matrixVectorMultiply m [v0; v1; v2]) = [v0; v1; v2]) /\
  (Rabs det < 1e-10 ->
   invert3x3 m = [[1; 0; 0]; [0; 1; 0]; [0; 0; 1]]).
Proof.
  intros m det. unfold invert3x3. subst m. cbn [entry nth]. fold det.
  split.
  - intros Hdet v0 v1 v2.
    destruct (Rlt_dec (Rabs det) 1e-10) as [H|_]; [rlra|].
    assert (Hnz : det <> 0).
    { intro E. rewrite E, Rabs_R0 in Hdet. rlra. }
    unfold matrixVectorMultiply. cbn [map seq entry nth].
    repeat f_equal; subst det; field; exact Hnz.
  - intro Hdet. destruct (Rlt_dec (Rabs det) 1e-10) as [_|H];
      [reflexivity | contradiction].
Qed.

Lemma invert3x3_spec_witness :
  let m := [[2; 0; 0]; [0; 1; 1]; [0; 0; 1]] in
  matrixVectorMultiply (invert3x3 m) (matrixVectorMultiply m [1; 2; 3])
  = [1; 2; 3].
Proof.
  refine (proj1 (invert3x3_spec 2 0 0 0 1 1 0 0 1) _ 1 2 3).
  replace (2 * (1 * 1 - 1 * 0) - 0 * (0 * 1 - 1 * 0) + 0 * (0 * 0 - 1 * 0))
    with 2 by rlra.
  rewrite Rabs_pos_eq by rlra. rlra.
Defined.

Lemma separate_spec (labels : list string) :
  forall (features yes no : list FeatureVector),
    separate labels features yes no =
    (yes ++ Invariants.classFeatures true labels features,
     no ++ Invariants.classFeatures false labels features).
Proof.
  unfold Invariants.classFeatures.
  induction labels as [|l labels IH]; intros features yes no.
  - cbn. rewrite !app_nil_r. reflexivity.
  - destruct features as [|f features].
    + cbn. rewrite !app_nil_r. reflexivity.
    + cbn [separate combine filter fst].
      destruct (String.eqb l "YES"); rewrite IH;
        cbn [Bool.eqb map snd]; rewrite <- app_assoc; reflexivity.
Qed.

Lemma classFeatures_nonempty (yes : bool) (labels : list string)
  (features : list FeatureVector) (l : string) :
  length labels = length features ->
  In l labels ->
  Bool.eqb (String.eqb l "YES") yes = true ->
  Invariants.classFeatures yes labels features <> [].
Proof.
  intros Hlen Hin Hl. unfold Invariants.classFeatures.
  destruct (In_nth labels l "" Hin) as (i & Hi & Hn).
  assert (Hc : In (l, nth i features (mkFeatureVector 0 0 0))
                 (combine labels features)).
  { rewrite <- Hn, <- combine_nth by exact Hlen.
    apply nth_In. rewrite length_combine. lia. }
  intro E. apply map_eq_nil in E.
  assert (Hf : In (l, nth i features (mkFeatureVector 0 0 0))
                 (filter (fun lf => Bool.eqb (String.eqb (fst lf) "YES") yes)
                    (combine labels features)))
    by (apply filter_In; split; [exact Hc | exact Hl]).
  rewrite E in Hf. destruct Hf.
Qed.

Lemma midpoint_score (w0 w1 w2 a b c : R) :
  dotProduct [w0; w1; w2] [a / 2; b / 2; c / 2]
  + -0.5 * dotProduct [w0; w1; w2] [a; b; c] = 0.
Proof.
  rewrite !dotProduct_3. replace (-0.5) with (- (1 / 2)) by rlra. field.
Qed.

Lemma sigmoid_0 : sigmoid 0 = 0.5.
Proof.
  unfold sigmoid. rewrite Ropp_0, exp_0. rlra.
Qed.

(** X21: a training set with as many labels as features, at least three
    examples, one of them labelled ['YES'] and one labelled otherwise, is
    fitted: the trained flag is set, the threshold is kept, there are three
    weights, the fitted weights and bias do not depend on the weights and
    bias before, and the decision boundary passes half way between the two
    class means, where the confidence is exactly 0.5.  The console shows
    the three success lines, after the warning of [invert3x3] exactly when
    the determinant of the pooled covariance is below [1e-10] in absolute
    value. *)
Theorem train_fits (features : list FeatureVector) (labels : list string)
  (self : Classifier) :
  length labels = length features ->
  (3 <= length features)%nat ->
  In "YES" labels ->
  (exists l, In l labels /\ l <> "YES") ->
  let after := fst (train features labels self) in
  let meanYes :=
    calculateMean (Invariants.classFeatures true labels features) in
  let meanNo :=
    calculateMean (Invariants.classFeatures false labels features) in
  let cov :=
    calculatePooledCovariance (Invariants.classFeatures true labels features)
      (Invariants.classFeatures false labels features) meanYes meanNo in
  let success :=
    [Log "LDA trained successfully" []; Log "Weights:" (weights after);
     Log "Bias:" [bias after]] in
  isTrained after = true /\
  threshold after = threshold self /\
  length (weights after) = 3%nat /\
  (Rabs (Invariants.determinant cov) < 1e-10 ->
   snd (train features labels self) =
   Warn "Matrix is nearly singular, using identity" :: success) /\
  (Rabs (Invariants.determinant cov) >= 1e-10 ->
   snd (train features labels self) = success) /\
  (forall other : Classifier,
      weights (fst (train features labels other)) = weights after /\
      bias (fst (train features labels other)) = bias after) /\
  confidence (predict (Invariants.midpoint meanYes meanNo) after) = 0.5.
Proof.
  intros Hlen H3 Hyes (l & Hl & Hne) after meanYes meanNo cov success.
  assert (Hy : Invariants.classFeatures true labels features <> []).
  { apply (classFeatures_nonempty true labels features "YES" Hlen Hyes).
    reflexivity. }
  assert (Hn : Invariants.classFeatures false labels features <> []).
  { apply (classFeatures_nonempty false labels features l Hlen Hl).
    apply String.eqb_neq in Hne. rewrite Hne. reflexivity. }
  assert (Hg1 : ((length features =? 0)%nat
                 || negb (length labels =? length features)%nat)%bool
                = false).
  { apply orb_false_intro.
    - apply Nat.eqb_neq. lia.
    - rewrite Hlen, Nat.eqb_refl. reflexivity. }
  assert (Hg2 : ((length (Invariants.classFeatures true labels features)
                  =? 0)%nat
                 || (length (Invariants.classFeatures false labels features)
                     =? 0)%nat)%bool = false).
  { apply orb_false_intro; apply Nat.eqb_neq; intro E;
      apply length_zero_iff_nil in E; contradiction. }
  assert (Htrain : forall st,
    train features labels st =
    let w := matrixVectorMultiply (invert3x3 cov) (centred meanYes meanNo) in
    let b := -0.5 * dotProduct w
                      [mean meanYes + mean meanNo; peak meanYes + peak meanNo;
                       latency meanYes + latency meanNo] in
    (mkClassifier w b true (threshold st),
     invert3x3Console cov ++
     [Log "LDA trained successfully" []; Log "Weights:" w; Log "Bias:" [b]])).
  { intro st. unfold train. rewrite Hg1, separate_spec. cbn [app].
    rewrite Hg2. reflexivity. }
  subst after success. rewrite (Htrain self). cbv zeta.
  cbn [fst snd isTrained threshold weights bias].
  split; [reflexivity|]. split; [reflexivity|]. split; [reflexivity|].
  split.
  { intro Hdet. unfold invert3x3Console. cbv zeta.
    fold (Invariants.determinant cov).
    destruct (Rlt_dec (Rabs (Invariants.determinant cov)) 1e-10) as [_|H];
      [reflexivity | contradiction]. }
  split.
  { intro Hdet. unfold invert3x3Console. cbv zeta.
    fold (Invariants.determinant cov).
    destruct (Rlt_dec (Rabs (Invariants.determinant cov)) 1e-10) as [H|_];
      [rlra | reflexivity]. }
  split.
  { intro other. rewrite (Htrain other). split; reflexivity. }
  unfold predict. cbn [isTrained negb confidence weights bias].
  unfold matrixVectorMultiply. cbn [map seq].
  unfold Invariants.midpoint. cbn [mean peak latency].
  rewrite midpoint_score. apply sigmoid_0.
Qed.

(** A training set whose second class holds twice the same example: the
    pooled covariance is [1e-6] times the identity, its determinant
    [1e-18], and the warning of [invert3x3] comes before the success
    lines. *)
Lemma train_fits_witness :
  let features := [mkFeatureVector 1 5 450; mkFeatureVector 0 1 300;
                   mkFeatureVector 0 1 300] in
  let after := fst (train features ["YES"; "NO"; "NO"] new) in
  snd (train features ["YES"; "NO"; "NO"] new) =
  [Warn "Matrix is nearly singular, using identity";
   Log "LDA trained successfully" []; Log "Weights:" (weights after);
   Log "Bias:" [bias after]].
Proof.
  assert (Hacc : forall d0 d1 d2 a b c d e f g h i : R,
             accumulate [d0; d1; d2] [[a; b; c]; [d; e; f]; [g; h; i]] =
             [[a + d0 * d0; b + d0 * d1; c + d0 * d2];
              [d + d1 * d0; e + d1 * d1; f + d1 * d2];
              [g + d2 * d0; h + d2 * d1; i + d2 * d2]])
    by reflexivity.
  refine (proj1 (proj2 (proj2 (proj2
            (train_fits
               [mkFeatureVector 1 5 450; mkFeatureVector 0 1 300;
                mkFeatureVector 0 1 300]
               ["YES"; "NO"; "NO"] new eq_refl _ _ _)))) _).
  - cbn. lia.
  - left. reflexivity.
  - exists "NO". split; [right; left; reflexivity | discriminate].
  - unfold Invariants.classFeatures.
    cbn [combine filter fst snd String.eqb Ascii.eqb Bool.eqb map].
    unfold calculatePooledCovariance, calculateMean. cbv zeta.
    cbn [fold_left length]. unfold centred. cbn [mean peak latency].
    rewrite !Hacc.
    unfold Invariants.determinant, for_range, setEntry, entry.
    cbn [Nat.sub seq fold_left nth assign Nat.add INR].
    match goal with
    | |- Rabs ?d < _ => replace d with 1e-18 by rlra
    end.
    unfold Rabs. destruct (Rcase_abs 1e-18); rlra.
Defined.

Lemma accumulate_explicit (d0 d1 d2 a b c d e f g h i : R) :
  accumulate [d0; d1; d2] [[a; b; c]; [d; e; f]; [g; h; i]] =
  [[a + d0 * d0; b + d0 * d1; c + d0 * d2];
   [d + d1 * d0; e + d1 * d1; f + d1 * d2];
   [g + d2 * d0; h + d2 * d1; i + d2 * d2]].
Proof.
  reflexivity.
Qed.

Lemma accumulate_symmetric (x mu : FeatureVector) (m : Matrix) :
  Invariants.symmetricWithDiagonal 0 m ->
  Invariants.symmetricWithDiagonal 0 (accumulate (centred x mu) m).
Proof.
  intros (a & b & c & e & f & i & -> & Ha & He & Hi).
  unfold centred. rewrite accumulate_explicit.
  set (d0 := mean x - mean mu). set (d1 := peak x - peak mu).
  set (d2 := latency x - latency mu).
  exists (a + d0 * d0), (b + d0 * d1), (c + d0 * d2), (e + d1 * d1),
    (f + d1 * d2), (i + d2 * d2).
  split.
  - rewrite (Rmult_comm d1 d0), (Rmult_comm d2 d0), (Rmult_comm d2 d1).
    reflexivity.
  - pose proof (Rle_0_sqr d0) as S0. pose proof (Rle_0_sqr d1) as S1.
    pose proof (Rle_0_sqr d2) as S2. unfold Rsqr in *. repeat split; rlra.
Qed.

Lemma accumulate_class_symmetric (class : list FeatureVector)
  (mu : FeatureVector) :
  forall m : Matrix,
    Invariants.symmetricWithDiagonal 0 m ->
    Invariants.symmetricWithDiagonal 0
      (fold_left (fun cov f => accumulate (centred f mu) cov) class m).
Proof.
  induction class as [|x class IH]; intros m Hm; cbn [fold_left].
  - exact Hm.
  - apply IH, accumulate_symmetric, Hm.
Qed.

(** X22: for three examples or more, the pooled covariance matrix is a
    symmetric 3 by 3 matrix whose diagonal entries are at least [1e-6]. *)
Theorem calculatePooledCovariance_symmetric
  (class1 class2 : list FeatureVector) (mean1 mean2 : FeatureVector) :
  (3 <= length class1 + length class2)%nat ->
  Invariants.symmetricWithDiagonal 1e-6
    (calculatePooledCovariance class1 class2 mean1 mean2).
Proof.
  intro Hn. unfold calculatePooledCovariance. cbv zeta.
  assert (H0 : Invariants.symmetricWithDiagonal 0
                 [[0; 0; 0]; [0; 0; 0]; [0; 0; 0]]).
  { exists 0, 0, 0, 0, 0, 0. repeat split; rlra. }
  apply (accumulate_class_symmetric class1 mean1) in H0.
  apply (accumulate_class_symmetric class2 mean2) in H0.
  destruct H0 as (a & b & c & e & f & i & -> & Ha & He & Hi).
  set (n := INR (length class1 + length class2)).
  assert (Hpos : 0 < n - 2).
  { unfold n. apply le_INR in Hn. change (INR 3) with (2 + 1) in Hn.
    rlra. }
  exists (a / (n - 2) + 1e-6), (b / (n - 2)), (c / (n - 2)),
    (e / (n - 2) + 1e-6), (f / (n - 2)), (i / (n - 2) + 1e-6).
  split; [reflexivity|].
  assert (Hd : forall v, 0 <= v -> 1e-6 <= v / (n - 2) + 1e-6).
  { intros v Hv.
    assert (0 <= v / (n - 2)); [|rlra].
    apply Rmult_le_pos; [exact Hv|].
    apply Rlt_le, Rinv_0_lt_compat, Hpos. }
  repeat split; apply Hd; assumption.
Qed.

Lemma calculatePooledCovariance_symmetric_witness :
  Invariants.symmetricWithDiagonal 1e-6
    (calculatePooledCovariance
       [mkFeatureVector 1 5 450] [mkFeatureVector 0 1 300;
                                  mkFeatureVector 0 2 600]
       (mkFeatureVector 1 5 450) (mkFeatureVector 0 (3 / 2) 450)).
Proof.
  apply (calculatePooledCovariance_symmetric
           [mkFeatureVector 1 5 450]
           [mkFeatureVector 0 1 300; mkFeatureVector 0 2 600]).
  cbn. lia.
Defined.

End ClassifierProperties.

(** ** Signal simulator: the bell component, the two classes, the draws *)

Section SimulatorProperties.

Import EEGSignal TrainingData Reference.

Local Open Scope R_scope.

Lemma inP300Window_true (t : R) :
  inP300Window t = true <-> 300 <= t <= 600.
Proof.
  unfold inP300Window.
  destruct (Rle_dec 300 t); destruct (Rle_dec t 600); split; intro H;
    try reflexivity; try discriminate; try rlra.
Qed.

(** X23: the component added to target samples is positive and at most
    5, equals 5 at 450 ms, and is symmetric about 450 ms. *)
Theorem gaussianComponent_shape (t d : R) :
  0 < gaussianComponent t <= 5 /\
  gaussianComponent 450 = 5 /\
  gaussianComponent (450 + d) = gaussianComponent (450 - d).
Proof.
  unfold gaussianComponent. cbv zeta. split; [|split].
  - set (e := - ((t - 450) / 75) ^ 2 / 2).
    assert (He : e <= 0).
    { unfold e. pose proof (pow2_ge_0 ((t - 450) / 75)). rlra. }
    pose proof (exp_pos e) as Hp.
    assert (H1 : exp e <= 1).
    { rewrite <- exp_0. destruct He as [He|He].
      - apply Rlt_le, exp_increasing, He.
      - rewrite He. apply Rle_refl. }
    rlra.
  - replace (- ((450 - 450) / 75) ^ 2 / 2) with 0 by field.
    rewrite exp_0. rlra.
  - f_equal. f_equal. field.
Qed.

Lemma nth_combine_lt {A B : Type} (da : A) (db : B) (l1 : list A) :
  forall (l2 : list B) (i : nat),
    (i < length l1)%nat -> (i < length l2)%nat ->
    nth i (combine l1 l2) (da, db) = (nth i l1 da, nth i l2 db).
Proof.
  induction l1 as [|x l1 IH]; intros l2 i H1 H2; [cbn in H1; lia|].
  destruct l2 as [|y l2]; [cbn in H2; lia|].
  destruct i as [|i]; [reflexivity|].
  cbn [combine nth]. apply IH; cbn [length] in *; lia.
Qed.

Lemma standardDraws_length (n : nat) :
  forall tape : list R,
    (2 * n <= length tape)%nat -> (n <= length (standardDraws tape))%nat.
Proof.
  induction n as [|n IH]; intros tape H; [lia|].
  destruct tape as [|u1 [|u2 tape]]; cbn [length] in H; try lia.
  cbn [standardDraws length]. specialize (IH tape). lia.
Qed.

(** X24: drawn from the same random values, a target epoch and a
    non-target epoch have the same timestamps, and sample by sample the
    target epoch is the non-target epoch plus the bell component where the
    timestamp lies in [[300, 600]] and plus nothing elsewhere. *)
Theorem target_is_nontarget_plus_component
  (sr dur nl : option R) (tape : list R) :
  let pT := mkParams target sr dur nl in
  let pN := mkParams nontarget sr dur nl in
  let n := Z.to_nat (numSamples pT) in
  Forall (fun u => u <> 0) tape ->
  (2 * n <= length tape)%nat ->
  exists outT outN rest,
    generateEEGSignal pT tape = Some (outT, rest) /\
    generateEEGSignal pN tape = Some (outN, rest) /\
    timestamps outT = timestamps outN /\
    length (rawSignal outT) = n /\ length (rawSignal outN) = n /\
    forall i, (i < n)%nat ->
      let t := nth i (timestamps outT) 0 in
      (300 <= t <= 600 ->
       nth i (rawSignal outT) 0 =
       nth i (rawSignal outN) 0 + gaussianComponent t) /\
      (~ 300 <= t <= 600 ->
       nth i (rawSignal outT) 0 = nth i (rawSignal outN) 0).
Proof.
  intros pT pN n Hnz Hlen.
  pose proof (generateEEGSignal_samples pT tape Hnz Hlen) as HT.
  pose proof (generateEEGSignal_samples pN tape Hnz Hlen) as HN.
  cbv zeta in HT, HN.
  change (numSamples pN) with (numSamples pT) in HN.
  change (effSamplingRate pN) with (effSamplingRate pT) in HN.
  change (effNoiseLevel pN) with (effNoiseLevel pT) in HN.
  change (type pT) with target in HT. change (type pN) with nontarget in HN.
  fold n in HT, HN.
  set (ts := map (fun k => INR k * 1000 / effSamplingRate pT) (seq 0 n))
    in *.
  do 3 eexists. split; [exact HT|]. split; [exact HN|].
  cbn [timestamps rawSignal].
  pose proof (standardDraws_length n tape Hlen) as Hd.
  assert (Hc : length (combine (seq 0 n) (standardDraws tape)) = n)
    by (rewrite length_combine, length_seq; lia).
  split; [reflexivity|].
  split; [rewrite length_map; exact Hc|].
  split; [rewrite length_map; exact Hc|].
  intros i Hi.
  assert (Hnth : forall ty,
             nth i (map (fun iz => amplitudeOf ty ts (fst iz)
                                     (snd iz * effNoiseLevel pT + 0))
                      (combine (seq 0 n) (standardDraws tape))) 0 =
             amplitudeOf ty ts i
               (nth i (standardDraws tape) 0 * effNoiseLevel pT + 0)).
  { intro ty.
    rewrite (nth_indep _ 0
               ((fun iz => amplitudeOf ty ts (fst iz)
                             (snd iz * effNoiseLevel pT + 0)) (O, 0)))
      by (rewrite length_map; lia).
    rewrite (map_nth (fun iz => amplitudeOf ty ts (fst iz)
                                  (snd iz * effNoiseLevel pT + 0))).
    rewrite nth_combine_lt by (rewrite ?length_seq; lia).
    cbn [fst snd]. rewrite seq_nth by exact Hi. reflexivity. }
  rewrite (Hnth target), (Hnth nontarget).
  unfold amplitudeOf. cbv zeta.
  destruct (inP300Window (nth i ts 0)) eqn:E.
  - apply inP300Window_true in E. split; [reflexivity | contradiction].
  - split; [|reflexivity]. intro H. apply inP300Window_true in H.
    congruence.
Qed.

Lemma target_is_nontarget_plus_component_witness :
  exists outT outN rest,
    generateEEGSignal (mkParams target (Some 2) (Some 1000) None)
      [0.5; 0.25; 0.5; 0.75] = Some (outT, rest) /\
    generateEEGSignal (mkParams nontarget (Some 2) (Some 1000) None)
      [0.5; 0.25; 0.5; 0.75] = Some (outN, rest) /\
    timestamps outT = timestamps outN.
Proof.
  destruct (target_is_nontarget_plus_component (Some 2) (Some 1000) None
              [0.5; 0.25; 0.5; 0.75])
    as (outT & outN & rest & HT & HN & Hts & _).
  - repeat constructor; rlra.
  - unfold numSamples, effSamplingRate, effDuration.
    cbn [samplingRate duration].
    rewrite !orDefault_nonzero by rlra.
    replace (2 * 1000 / 1000) with (IZR 2) by rlra.
    rewrite <- (Int_part_spec (IZR 2) 2) by rlra.
    cbn. lia.
  - exists outT, outN, rest. repeat split; assumption.
Defined.

Lemma redrawWhileZero_spec (tape : list R) :
  forall (u u' : R) (rest : list R),
    redrawWhileZero u tape = Some (u', rest) ->
    u' <> 0 /\ (u' = u \/ In u' tape) /\
    exists used, tape = used ++ rest.
Proof.
  induction tape as [|v tape IH]; intros u u' rest H.
  - cbn [redrawWhileZero] in H. destruct (Req_dec_T u 0); [discriminate H|].
    injection H as <- <-. split; [assumption|].
    split; [left; reflexivity | exists []; reflexivity].
  - cbn [redrawWhileZero] in H. destruct (Req_dec_T u 0).
    + destruct (IH v u' rest H) as (Hnz & Hin & used & E).
      split; [exact Hnz|]. split.
      * right. destruct Hin as [->|Hin]; [left; reflexivity | right; exact Hin].
      * exists (v :: used). rewrite E. reflexivity.
    + injection H as <- <-. split; [assumption|].
      split; [left; reflexivity | exists []; reflexivity].
Qed.

(** X25: whenever [generateGaussianNoise] returns, the two values it
    feeds to the Box-Muller formula are draws that are not zero, so the
    logarithm of zero is never taken; the draws it has read are a prefix of
    the random values, at least two of them, and when neither of the first
    two draws is zero exactly two are read. *)
Theorem generateGaussianNoise_draws (mean stdDev : R) (tape : list R) :
  (forall v rest,
      generateGaussianNoise mean stdDev tape = Some (v, rest) ->
      exists u1 u2 used,
        u1 <> 0 /\ u2 <> 0 /\ In u1 tape /\ In u2 tape /\
        v = boxMuller u1 u2 * stdDev + mean /\
        tape = used ++ rest /\ (2 <= length used)%nat) /\
  (forall u1 u2 rest,
      tape = u1 :: u2 :: rest -> u1 <> 0 -> u2 <> 0 ->
      generateGaussianNoise mean stdDev tape =
      Some (boxMuller u1 u2 * stdDev + mean, rest)).
Proof.
  split.
  - intros v rest H. unfold generateGaussianNoise, bind, random, ret in H.
    destruct tape as [|a [|b tape1]]; try discriminate H.
    destruct (redrawWhileZero a tape1) as [[u1 t1]|] eqn:E1;
      [|discriminate H].
    destruct (redrawWhileZero b t1) as [[u2 t2]|] eqn:E2;
      [|discriminate H].
    injection H as <- <-.
    destruct (redrawWhileZero_spec _ _ _ _ E1) as (N1 & I1 & used1 & P1).
    destruct (redrawWhileZero_spec _ _ _ _ E2) as (N2 & I2 & used2 & P2).
    exists u1, u2, (a :: b :: used1 ++ used2).
    split; [exact N1|]. split; [exact N2|].
    split.
    { destruct I1 as [->|I1]; [left; reflexivity | right; right; exact I1]. }
    split.
    { destruct I2 as [->|I2]; [right; left; reflexivity|].
      right. right. rewrite P1. apply in_or_app. right. exact I2. }
    split; [reflexivity|]. split.
    + rewrite P1, P2. cbn [app]. rewrite <- app_assoc. reflexivity.
    + cbn [length]. lia.
  - intros u1 u2 rest -> H1 H2.
    apply generateGaussianNoise_two_draws; assumption.
Qed.

Lemma generateGaussianNoise_draws_witness :
  generateGaussianNoise 0 0.5 [0.5; 0.25; 0.75] =
  Some (boxMuller 0.5 0.25 * 0.5 + 0, [0.75]).
Proof.
  apply (proj2 (generateGaussianNoise_draws 0 0.5 [0.5; 0.25; 0.75])
           0.5 0.25 [0.75] eq_refl); rlra.
Defined.

Lemma generateEEGSignal_lengths (params : SignalSimulationParams)
  (tape : list R) (out : EEGSignalResponse) (rest : list R) :
  generateEEGSignal params tape = Some (out, rest) ->
  length (timestamps out) = Z.to_nat (numSamples params) /\
  length (rawSignal out) = Z.to_nat (numSamples params).
Proof.
  unfold generateEEGSignal, bind, ret. cbv zeta. intro H.
  destruct (signalLoop _ _ _ _ _ tape) as [[raw tape1]|] eqn:E;
    [|discriminate H].
  injection H as <- _. cbn [timestamps rawSignal].
  apply signalLoop_length in E. rewrite length_seq in E.
  rewrite length_map, length_seq. split; [reflexivity | exact E].
Qed.

Lemma numSamples_default (ty : SignalType) (noiseLevel : option R) :
  numSamples (mkParams ty None None noiseLevel) = 250%Z.
Proof.
  unfold numSamples, effSamplingRate, effDuration. cbn.
  replace (250 * 1000 / 1000) with (IZR 250) by rlra.
  symmetry. apply Int_part_spec. rlra.
Qed.

Lemma generateLoop_spec (count : nat) (ty : SignalType) (noiseLevel : R) :
  forall (data : list (EEGSignalResponse * SignalType)) (tape : list R)
         (out : list (EEGSignalResponse * SignalType)) (rest : list R),
    generateLoop count ty noiseLevel data tape = Some (out, rest) ->
    exists signals,
      out = data ++ map (fun s => (s, ty)) signals /\
      length signals = count /\
      Forall (fun s => length (timestamps s) = 250%nat /\
                       length (rawSignal s) = 250%nat) signals.
Proof.
  induction count as [|count IH]; intros data tape out rest H.
  - cbn in H. injection H as <- _. exists []. cbn.
    rewrite app_nil_r. repeat split. constructor.
  - cbn [generateLoop] in H. unfold bind at 1 in H.
    destruct (generateEEGSignal _ tape) as [[signal tape1]|] eqn:E;
      [|discriminate H].
    apply IH in H. destruct H as (signals & -> & Hl & Hall).
    exists (signal :: signals). split; [|split].
    + cbn [map]. rewrite <- app_assoc. reflexivity.
    + cbn [length]. lia.
    + constructor; [|exact Hall].
      apply generateEEGSignal_lengths in E.
      rewrite numSamples_default in E. exact E.
Qed.

Lemma generateLoop_runs (count : nat) (ty : SignalType) (noiseLevel : R) :
  forall (data : list (EEGSignalResponse * SignalType)) (tape : list R),
    Forall (fun u => u <> 0) tape ->
    (500 * count <= length tape)%nat ->
    exists out,
      generateLoop count ty noiseLevel data tape =
      Some (out, skipn (500 * count) tape).
Proof.
  induction count as [|count IH]; intros data tape Hnz Hlen.
  - exists data. reflexivity.
  - cbn [generateLoop]. unfold bind at 1.
    pose proof (generateEEGSignal_samples
                  (mkParams ty None None (Some noiseLevel)) tape Hnz) as E.
    cbv zeta in E. rewrite numSamples_default in E.
    change (Z.to_nat 250) with 250%nat in E.
    assert (Hex : exists signal,
               generateEEGSignal (mkParams ty None None (Some noiseLevel))
                 tape = Some (signal, skipn (2 * 250) tape))
      by (eexists; apply E; lia).
    clear E. destruct Hex as (signal & Es). rewrite Es.
    destruct (IH (data ++ [(signal, ty)]) (skipn (2 * 250) tape))
      as (out & Ho).
    + apply Forall_forall. intros u Hu.
      rewrite Forall_forall in Hnz. apply Hnz.
      rewrite <- (firstn_skipn (2 * 250) tape). apply in_or_app.
      right. exact Hu.
    + rewrite length_skipn. lia.
    + exists out. rewrite Ho, skipn_skipn.
      replace (500 * count + 2 * 250)%nat with (500 * S count)%nat by lia.
      reflexivity.
Qed.

(** X26: [generateTrainingData] returns first [targetCount] signals
    labelled target and then [nonTargetCount] signals labelled non-target
    (a count below zero gives none), each with 250 timestamps and 250
    samples; it returns whenever the random values are never zero and there
    are 500 of them for each signal. *)
Theorem generateTrainingData_spec (targetCount nonTargetCount : Z)
  (noiseLevel : R) (tape : list R) :
  let nT := Z.to_nat targetCount in
  let nN := Z.to_nat nonTargetCount in
  (forall data rest,
      generateTrainingData targetCount nonTargetCount noiseLevel tape
      = Some (data, rest) ->
      map snd data = repeat target nT ++ repeat nontarget nN /\
      Forall (fun s => length (timestamps s) = 250%nat /\
                       length (rawSignal s) = 250%nat) (map fst data)) /\
  (Forall (fun u => u <> 0) tape ->
   (500 * (nT + nN) <= length tape)%nat ->
   exists data,
     generateTrainingData targetCount nonTargetCount noiseLevel tape
     = Some (data, skipn (500 * (nT + nN)) tape)).
Proof.
  intros nT nN. unfold generateTrainingData. split.
  - intros data rest H. unfold bind in H.
    destruct (generateLoop (Z.to_nat targetCount) target noiseLevel [] tape)
      as [[d1 tape1]|] eqn:E1; [|discriminate H].
    apply generateLoop_spec in E1. destruct E1 as (s1 & -> & L1 & A1).
    apply generateLoop_spec in H. destruct H as (s2 & -> & L2 & A2).
    cbn [app]. rewrite !map_app, !map_map. cbn [snd fst].
    rewrite !map_id. split.
    + f_equal.
      * fold nT in L1. rewrite <- L1. clear. induction s1; cbn; congruence.
      * fold nN in L2. rewrite <- L2. clear. induction s2; cbn; congruence.
    + apply Forall_app. split; assumption.
  - intros Hnz Hlen. unfold bind.
    destruct (generateLoop_runs nT target noiseLevel [] tape Hnz)
      as (d1 & E1); [lia|].
    fold nT. rewrite E1.
    destruct (generateLoop_runs nN nontarget noiseLevel d1
                (skipn (500 * nT) tape)) as (d2 & E2).
    + apply Forall_forall. intros u Hu.
      rewrite Forall_forall in Hnz. apply Hnz.
      rewrite <- (firstn_skipn (500 * nT) tape). apply in_or_app.
      right. exact Hu.
    + rewrite length_skipn. lia.
    + exists d2. fold nN. rewrite E2, skipn_skipn.
      replace (500 * nN + 500 * nT)%nat with (500 * (nT + nN))%nat by lia.
      reflexivity.
Qed.

Lemma generateTrainingData_spec_witness :
  exists data,
    generateTrainingData 1 0 0.5 (repeat 0.5 500) =
    Some (data, skipn (500 * (Z.to_nat 1 + Z.to_nat 0)) (repeat 0.5 500)).
Proof.
  refine (proj2 (generateTrainingData_spec 1 0 0.5 (repeat 0.5 500)) _ _).
  - apply Forall_forall. intros u Hu. apply repeat_spec in Hu. subst u.
    rlra.
  - rewrite repeat_length. change (Z.to_nat 1) with 1%nat.
    change (Z.to_nat 0) with 0%nat. lia.
Defined.

End SimulatorProperties.
